(** * crest: a fluent HTTP assertion client, embedded in Rocq

    The development follows [client.go] (the request builder) and the
    response wrapper file (the response inspector and the null inspector).
    Go pointers are addresses into an explicit store, closures are
    defunctionalised into the variables they capture, and a nil-pointer
    dereference is an explicit [Panic] outcome.  The collaborators the
    package calls but does not define (net/http, encoding/json, net/url,
    cookiejar) are gathered in an environment record [Env]. *)

From stdpp Require Import base option list strings gmap fin_maps.
From Stdlib Require Import ZArith Ascii.

Local Open Scope string_scope.

(** ** Go values that cross the API *)

Abbreviation loc := nat (only parsing).

(** [error] values.  [fmt.Errorf] keeps its format string and its arguments
    apart, [errors.Wrap]/[errors.Wrapf] keep their cause. *)
Inductive error : Type :=
| External (msg : string)
| Errorf (format : string) (args : list fmtArg)
| Wrap (cause : error) (message : string)
| Wrapf (cause : error) (format : string) (args : list fmtArg)
with fmtArg : Type :=
| ArgString (s : string)
| ArgInt (z : Z)
| ArgError (e : error).

(** A value passed as [interface{}]: a JSON request body or a [ParseBody]
    destination. *)
Inductive any : Type :=
| AnyNil
| AnyString (s : string)
| AnyInt (z : Z)
| AnyRecord (fields : list (string * string))
| AnyFunc.

(** [http.Header], a [map[string][]string]; [None] is the nil map. *)
Abbreviation Header := (gmap string (list string)) (only parsing).

(** [h[key]] on a possibly nil map: a missing key reads as the nil slice. *)
Definition header_index (h : option Header) (key : string) : list string :=
  match h with
  | None => []
  | Some m => default [] (m !! key)
  end.

Record Request := {
  Method : string;
  URL : string;
  ReqHeader : Header;
  ReqTimeout : option Z;
  ReqBody : option string
}.

(** What the transport hands back for one call: status, headers and a body
    stream given by its content and the read error it ends with, if any. *)
Record RawResponse := {
  raw_StatusCode : Z;
  raw_Header : option Header;
  raw_Body : string;
  raw_ReadErr : option error
}.

(** [*http.Response]; [Body] is the address of the body stream. *)
Record Response := {
  StatusCode : Z;
  RespHeader : option Header;
  Body : loc
}.

(** An [io.ReadCloser]: the bytes not yet read, the error a read ends with
    instead of EOF, and whether [Close] was called. *)
Record BodyStream := {
  unread : string;
  read_err : option error;
  closed : bool
}.

(** Observable calls to collaborators and to caller-supplied functions. *)
Inductive Event : Type :=
| EvDo (req : Request)
| EvReadAll (body : loc)
| EvMarshal (v : any)
| EvUnmarshal (data : string) (dest : loc)
| EvPredicate (body : string).

(** ** The collaborators *)

Record Env := {
  (** [textproto.CanonicalMIMEHeaderKey], used by [Header.Add] *)
  CanonicalMIMEHeaderKey : string → string;
  (** the error of [http.NewRequest method url body], if any *)
  http_NewRequest_err : string → string → option error;
  (** [req.URL.String()] for a request built from this URL *)
  URL_String : string → string;
  (** [Do] of [http.Client], given the calls made so far and the cookie jar *)
  httpClient_Do : list Event → option loc → Request →
                  option RawResponse * option error;
  (** the encoding of a user and a password that [SetBasicAuth] puts
      behind ["Basic "] *)
  basicAuth : string → string → string;
  (** the error of [cookiejar.New(nil)], if any *)
  cookiejar_New_err : option error;
  json_Marshal : any → string + error;
  (** [json.Unmarshal data v]: the new content of [*v] and the error *)
  json_Unmarshal : string → option any → option any * option error;
  (** [url.Values.Encode] *)
  Values_Encode : list (string * list string) → string
}.

(** ** Strings *)

(** [strings.Contains] *)
Fixpoint strings_Contains (s substr : string) : bool :=
  if String.prefix substr s then true
  else match s with
       | EmptyString => false
       | String _ s' => strings_Contains s' substr
       end.

(** [strings.TrimPrefix] *)
Definition strings_TrimPrefix (s prefix : string) : string :=
  if String.prefix prefix s
  then String.substring (String.length prefix)
                        (String.length s - String.length prefix) s
  else s.

(** ** Objects and the store *)

(** The two closures [NewCustomClient] builds; each captures [cl]. *)
Inductive errGetterFn := ErrGetterOf (cl : loc).
Inductive errSetterFn := ErrSetterOf (cl : loc).

Record client := {
  baseURL : string;
  httpClient : loc;
  err : option error;
  errGetter : errGetterFn;
  errSetter : errSetterFn;
  useBasicAuth : bool;
  basicAuthUser : string;
  basicAuthPass : string;
  useCookies : bool;
  headers : option Header;
  timeout : Z
}.

(** [http.Client], of which only the cookie jar is touched. *)
Record http_Client := { Jar : option loc }.

(** The functions a response wrapper is built with: the method value
    [c.Error], and either the value of [c.errSetter] or the closure of [do]
    that annotates the error with the request. *)
Inductive errCheckerFn := MethodError (c : loc).
Inductive setErrorFn :=
| FieldErrSetter (f : errSetterFn)
| DoErrSetter (c : loc) (req : Request).

Record responseWrapper := {
  error_ : errCheckerFn;
  setError : setErrorFn;
  resp : option Response;
  body : string
}.

Record nopResponseWrapper : Set := NopResponseWrapper {}.

(** A [ResponseWrapper] interface value, by dynamic type. *)
Inductive ResponseWrapper : Type :=
| PtrResponseWrapper (r : loc)
| NopValue (n : nopResponseWrapper)
| PtrNop (n : nopResponseWrapper).

Record Store := {
  clients : gmap loc client;
  httpClients : gmap loc http_Client;
  wrappers : gmap loc responseWrapper;
  bodies : gmap loc BodyStream;
  vars : gmap loc any;
  jars : nat;
  trace : list Event
}.

Definition empty_store : Store :=
  {| clients := ∅; httpClients := ∅; wrappers := ∅; bodies := ∅;
     vars := ∅; jars := 0; trace := [] |}.

(** ** A state monad with panics *)

Inductive Outcome (A : Type) : Type :=
| Ret (a : A) (s : Store)
| Panic (s : Store).
Arguments Ret {A} a s.
Arguments Panic {A} s.

Definition M (A : Type) : Type := Store → Outcome A.

Definition ret {A} (a : A) : M A := λ s, Ret a s.
Definition panic {A} : M A := λ s, Panic s.
Definition bind {A B} (m : M A) (k : A → M B) : M B :=
  λ s, match m s with
       | Ret a s' => k a s'
       | Panic s' => Panic s'
       end.

Notation "'do*' x ← m ; k" := (bind m (λ x, k))
  (at level 10, x name, m at level 100, k at level 200,
   format "'[v' 'do*'  x  ←  m ;  '/' k ']'").
Notation "m ;;; k" := (bind m (λ _, k))
  (at level 100, k at level 200, right associativity).

(** *** Store access.  Reading or writing through an address that holds no
    object is a nil dereference. *)

Definition with_clients (f : gmap loc client → gmap loc client) (s : Store) :=
  {| clients := f (clients s); httpClients := httpClients s;
     wrappers := wrappers s; bodies := bodies s; vars := vars s;
     jars := jars s; trace := trace s |}.
Definition with_httpClients (f : gmap loc http_Client → gmap loc http_Client)
    (s : Store) :=
  {| clients := clients s; httpClients := f (httpClients s);
     wrappers := wrappers s; bodies := bodies s; vars := vars s;
     jars := jars s; trace := trace s |}.
Definition with_wrappers
    (f : gmap loc responseWrapper → gmap loc responseWrapper) (s : Store) :=
  {| clients := clients s; httpClients := httpClients s;
     wrappers := f (wrappers s); bodies := bodies s; vars := vars s;
     jars := jars s; trace := trace s |}.
Definition with_bodies (f : gmap loc BodyStream → gmap loc BodyStream)
    (s : Store) :=
  {| clients := clients s; httpClients := httpClients s;
     wrappers := wrappers s; bodies := f (bodies s); vars := vars s;
     jars := jars s; trace := trace s |}.
Definition with_vars (f : gmap loc any → gmap loc any) (s : Store) :=
  {| clients := clients s; httpClients := httpClients s;
     wrappers := wrappers s; bodies := bodies s; vars := f (vars s);
     jars := jars s; trace := trace s |}.
Definition with_jars (f : nat → nat) (s : Store) :=
  {| clients := clients s; httpClients := httpClients s;
     wrappers := wrappers s; bodies := bodies s; vars := vars s;
     jars := f (jars s); trace := trace s |}.
Definition with_trace (f : list Event → list Event) (s : Store) :=
  {| clients := clients s; httpClients := httpClients s;
     wrappers := wrappers s; bodies := bodies s; vars := vars s;
     jars := jars s; trace := f (trace s) |}.

Definition get_store : M Store := λ s, Ret s s.
Definition modify_store (f : Store → Store) : M unit := λ s, Ret tt (f s).

Definition deref {A} (heap : Store → gmap loc A) (p : loc) : M A :=
  λ s, match heap s !! p with
       | Some x => Ret x s
       | None => Panic s
       end.

Definition get_client : loc → M client := deref clients.
Definition get_httpClient : loc → M http_Client := deref httpClients.
Definition get_wrapper : loc → M responseWrapper := deref wrappers.
Definition get_body : loc → M BodyStream := deref bodies.

Definition update_client (p : loc) (f : client → client) : M unit :=
  do* x ← get_client p;
  modify_store (with_clients (insert p (f x))).
Definition update_httpClient (p : loc) (f : http_Client → http_Client)
    : M unit :=
  do* x ← get_httpClient p;
  modify_store (with_httpClients (insert p (f x))).
Definition update_wrapper (p : loc) (f : responseWrapper → responseWrapper)
    : M unit :=
  do* x ← get_wrapper p;
  modify_store (with_wrappers (insert p (f x))).

(** Allocation picks an address no object of that kind occupies. *)
Definition alloc_client (x : client) : M loc :=
  λ s, let p := fresh (dom (clients s)) in
       Ret p (with_clients (insert p x) s).
Definition alloc_httpClient (x : http_Client) : M loc :=
  λ s, let p := fresh (dom (httpClients s)) in
       Ret p (with_httpClients (insert p x) s).
Definition alloc_wrapper (x : responseWrapper) : M loc :=
  λ s, let p := fresh (dom (wrappers s)) in
       Ret p (with_wrappers (insert p x) s).
Definition alloc_body (x : BodyStream) : M loc :=
  λ s, let p := fresh (dom (bodies s)) in
       Ret p (with_bodies (insert p x) s).

Definition log (e : Event) : M unit := modify_store (with_trace (cons e)).

(** Field assignments on a [client]. *)
Definition set_err (e : option error) (c : client) : client :=
  {| baseURL := baseURL c; httpClient := httpClient c; err := e;
     errGetter := errGetter c; errSetter := errSetter c;
     useBasicAuth := useBasicAuth c; basicAuthUser := basicAuthUser c;
     basicAuthPass := basicAuthPass c; useCookies := useCookies c;
     headers := headers c; timeout := timeout c |}.
Definition set_basicAuth (use : bool) (user pass : string) (c : client)
    : client :=
  {| baseURL := baseURL c; httpClient := httpClient c; err := err c;
     errGetter := errGetter c; errSetter := errSetter c;
     useBasicAuth := use; basicAuthUser := user;
     basicAuthPass := pass; useCookies := useCookies c;
     headers := headers c; timeout := timeout c |}.
Definition set_headers (h : option Header) (c : client) : client :=
  {| baseURL := baseURL c; httpClient := httpClient c; err := err c;
     errGetter := errGetter c; errSetter := errSetter c;
     useBasicAuth := useBasicAuth c; basicAuthUser := basicAuthUser c;
     basicAuthPass := basicAuthPass c; useCookies := useCookies c;
     headers := h; timeout := timeout c |}.
Definition set_timeout (t : Z) (c : client) : client :=
  {| baseURL := baseURL c; httpClient := httpClient c; err := err c;
     errGetter := errGetter c; errSetter := errSetter c;
     useBasicAuth := useBasicAuth c; basicAuthUser := basicAuthUser c;
     basicAuthPass := basicAuthPass c; useCookies := useCookies c;
     headers := headers c; timeout := t |}.
Definition set_body (b : string) (r : responseWrapper) : responseWrapper :=
  {| error_ := error_ r; setError := setError r; resp := resp r; body := b |}.

(** ** The request builder ([client.go]) *)

Section Crest.
Context (env : Env).

(** [h.Add(key, value)] *)
Definition Header_Add (h : Header) (key value : string) : Header :=
  let k := CanonicalMIMEHeaderKey env key in
  <[k := (default [] (h !! k) ++ [value])%list]> h.

(** [h.Set(key, value)] *)
Definition Header_Set (h : Header) (key value : string) : Header :=
  <[CanonicalMIMEHeaderKey env key := [value]]> h.

(** [req.SetBasicAuth(username, password)], which sets the header
    [Authorization] *)
Definition SetBasicAuth (h : Header) (username password : string) : Header :=
  Header_Set h "Authorization" ("Basic " +:+ basicAuth env username password).

(** [for key, vals := range src { for _, val := range vals { dst.Add(key, val) } }];
    ranging over the nil map runs no iteration. *)
Definition add_each (src : option Header) (dst : Header) : Header :=
  match src with
  | None => dst
  | Some m =>
      map_fold (λ key vals acc,
                  foldl (λ acc' val, Header_Add acc' key val) acc vals)
               dst m
  end.

Definition call_errGetter (g : errGetterFn) : M (option error) :=
  match g with
  | ErrGetterOf cl => do* x ← get_client cl; ret (err x)
  end.

Definition call_errSetter (f : errSetterFn) (e : error) : M unit :=
  match f with
  | ErrSetterOf cl => update_client cl (set_err (Some e))
  end.

Definition NewCustomClient (url : string) (httpClient : loc) : M loc :=
  λ s, let cl := fresh (dom (clients s)) in
       Ret cl (with_clients (insert cl
         {| baseURL := url; httpClient := httpClient; err := None;
            errGetter := ErrGetterOf cl; errSetter := ErrSetterOf cl;
            useBasicAuth := false; basicAuthUser := ""; basicAuthPass := "";
            useCookies := false; headers := None; timeout := 0 |}) s).

Definition NewClient (url : string) : M loc :=
  do* h ← alloc_httpClient {| Jar := None |};
  NewCustomClient url h.

(** [c.errGetter()] *)
Definition errGetter_of (c : loc) : M (option error) :=
  do* x ← get_client c;
  call_errGetter (errGetter x).

(** [c.errSetter(e)] *)
Definition errSetter_of (c : loc) (e : error) : M unit :=
  do* x ← get_client c;
  call_errSetter (errSetter x) e.

Definition NoBasicAuth (c : loc) : M loc :=
  do* e ← errGetter_of c;
  if e is Some _ then ret c else
  update_client c (set_basicAuth false "" "");;;
  ret c.

Definition UseBasicAuth (c : loc) (user pass : string) : M loc :=
  do* e ← errGetter_of c;
  if e is Some _ then ret c else
  update_client c (set_basicAuth true user pass);;;
  ret c.

Definition UseCookies (c : loc) (use : bool) : M loc :=
  do* e ← errGetter_of c;
  if e is Some _ then ret c else
  do* x ← get_client c;
  if negb use then
    update_httpClient (httpClient x) (λ _, {| Jar := None |});;;
    ret c
  else
    match cookiejar_New_err env with
    | Some e' =>
        errSetter_of c (Wrap e' "creating cookie jar");;;
        ret c
    | None =>
        do* s ← get_store;
        let jar := jars s in
        modify_store (with_jars S);;;
        update_httpClient (httpClient x) (λ _, {| Jar := Some jar |});;;
        ret c
    end.

Definition WithHeader (c : loc) (key value : string) : M loc :=
  do* e ← errGetter_of c;
  if e is Some _ then ret c else
  do* x ← get_client c;
  let h := if headers x is Some h then h else ∅ in
  update_client c (set_headers (Some (Header_Add h key value)));;;
  ret c.

Definition WithTimeout (c : loc) (t : Z) : M loc :=
  do* e ← errGetter_of c;
  if e is Some _ then ret c else
  update_client c (set_timeout t);;;
  ret c.

Definition Error (c : loc) : M (option error) := errGetter_of c.

Definition Clone (c : loc) : M loc :=
  do* e ← errGetter_of c;
  if e is Some _ then ret c else
  do* x ← get_client c;
  let cloned := set_headers (Some (add_each (headers x) ∅)) x in
  alloc_client cloned.

Definition buildPath (c : loc) (path : string) : M string :=
  do* x ← get_client c;
  ret (baseURL x +:+ "/" +:+ strings_TrimPrefix path "/").

Definition populateReq (c : loc) (req : Request) : M Request :=
  do* x ← get_client c;
  ret {| Method := Method req;
         URL := URL req;
         ReqHeader :=
           add_each (headers x)
             (if useBasicAuth x
              then SetBasicAuth (ReqHeader req) (basicAuthUser x)
                     (basicAuthPass x)
              else ReqHeader req);
         ReqTimeout := if (0 <? timeout x)%Z then Some (timeout x)
                       else ReqTimeout req;
         ReqBody := ReqBody req |}.

(** [nil] is [None], both for the request returned and for the body reader. *)
Definition buildReq (c : loc) (method path : string) (body : option string)
    : M (option Request) :=
  do* url ← buildPath c path;
  match http_NewRequest_err env method url with
  | Some e =>
      errSetter_of c (Wrap e "creating request");;;
      ret None
  | None =>
      do* req ← populateReq c {| Method := method; URL := url;
                                  ReqHeader := ∅;
                                  ReqTimeout := None; ReqBody := body |};
      ret (Some req)
  end.

(** ** The response inspector *)

(** [ioutil.ReadAll]: consumes the stream up to EOF or to its read error. *)
Definition ioutil_ReadAll (b : loc) : M (string + error) :=
  log (EvReadAll b);;;
  do* st ← get_body b;
  modify_store (with_bodies (insert b
    {| unread := ""; read_err := read_err st; closed := closed st |}));;;
  match read_err st with
  | Some e => ret (inr e)
  | None => ret (inl (unread st))
  end.

Definition call_errChecker (g : errCheckerFn) : M (option error) :=
  match g with
  | MethodError c => Error c
  end.

Definition call_setError (f : setErrorFn) (e : error) : M unit :=
  match f with
  | FieldErrSetter f' => call_errSetter f' e
  | DoErrSetter c req =>
      errSetter_of c
        (Wrapf e "doing a %v request to URL %q"
               [ArgString (Method req); ArgString (URL_String env (URL req))])
  end.

Definition newResponseWrapper (resp : option Response)
    (errChecker : errCheckerFn) (errSetter : setErrorFn)
    : M ResponseWrapper :=
  do* r ← alloc_wrapper {| error_ := errChecker; resp := resp;
                            setError := errSetter; body := "" |};
  do* e ← call_errChecker errChecker;
  if e is Some _ then ret (PtrResponseWrapper r) else
  do* rp ← (if resp is Some rp then ret rp else panic);
  do* res ← ioutil_ReadAll (Body rp);
  match res with
  | inr e' =>
      call_setError errSetter (Wrap e' "reading response body")
  | inl bs => update_wrapper r (set_body bs)
  end;;;
  ret (PtrResponseWrapper r).

(** [r.error()], [r.setError(e)] and [r.resp] dereferenced *)
Definition rw_error (r : loc) : M (option error) :=
  do* w ← get_wrapper r;
  call_errChecker (error_ w).
Definition rw_setError (r : loc) (e : error) : M unit :=
  do* w ← get_wrapper r;
  call_setError (setError w) e.
Definition rw_resp (r : loc) : M Response :=
  do* w ← get_wrapper r;
  if resp w is Some rp then ret rp else panic.

Definition when (b : bool) (m : M unit) : M unit := if b then m else ret tt.

Definition rw_Body (r : loc) : M string :=
  do* w ← get_wrapper r;
  ret (body w).

Definition ExpectBodyContains (r : loc) (needle : string) : M ResponseWrapper :=
  do* e ← rw_error r;
  if e is Some _ then ret (PtrResponseWrapper r) else
  do* w ← get_wrapper r;
  when (negb (strings_Contains (body w) needle))
       (rw_setError r (Errorf "expected body to contain %q but it did not"
                              [ArgString needle]));;;
  ret (PtrResponseWrapper r).

Definition ExpectBodyEquals (r : loc) (value : string) : M ResponseWrapper :=
  do* e ← rw_error r;
  if e is Some _ then ret (PtrResponseWrapper r) else
  do* w ← get_wrapper r;
  when (negb (bool_decide (body w = value)))
       (rw_setError r (Errorf "expected body to be %q but it was not"
                              [ArgString value]));;;
  ret (PtrResponseWrapper r).

Definition ExpectBodyNotContains (r : loc) (needle : string)
    : M ResponseWrapper :=
  do* e ← rw_error r;
  if e is Some _ then ret (PtrResponseWrapper r) else
  do* w ← get_wrapper r;
  when (strings_Contains (body w) needle)
       (rw_setError r (Errorf "expected body to not contain %q but it does"
                              [ArgString needle]));;;
  ret (PtrResponseWrapper r).

Definition ExpectBodyNotEquals (r : loc) (value : string)
    : M ResponseWrapper :=
  do* e ← rw_error r;
  if e is Some _ then ret (PtrResponseWrapper r) else
  do* w ← get_wrapper r;
  when (bool_decide (body w = value))
       (rw_setError r (Errorf "expected body not to be %q but it was"
                              [ArgString value]));;;
  ret (PtrResponseWrapper r).

(** Calling a function the caller passed in is recorded in the trace. *)
Definition ExpectBodyPasses (r : loc) (f : string → bool) : M ResponseWrapper :=
  do* e ← rw_error r;
  if e is Some _ then ret (PtrResponseWrapper r) else
  do* w ← get_wrapper r;
  log (EvPredicate (body w));;;
  when (negb (f (body w)))
       (rw_setError r (Errorf "expected function to pass, but it did not" []));;;
  ret (PtrResponseWrapper r).

Definition ExpectHeaderContains (r : loc) (key needle : string)
    : M ResponseWrapper :=
  do* e ← rw_error r;
  if e is Some _ then ret (PtrResponseWrapper r) else
  do* rp ← rw_resp r;
  if RespHeader rp is None then
    rw_setError r
      (Errorf "expected a header %q containing %q, but there are no headers"
              [ArgString key; ArgString needle]);;;
    ret (PtrResponseWrapper r)
  else
  let found := existsb (λ value, strings_Contains value needle)
                       (header_index (RespHeader rp) key) in
  when (negb found)
       (rw_setError r
          (Errorf "expected a header %q containing %q, but it did not"
                  [ArgString key; ArgString needle]));;;
  ret (PtrResponseWrapper r).

Definition ExpectHeaderEquals (r : loc) (key needle : string)
    : M ResponseWrapper :=
  do* e ← rw_error r;
  if e is Some _ then ret (PtrResponseWrapper r) else
  do* rp ← rw_resp r;
  if RespHeader rp is None then
    rw_setError r
      (Errorf "expected a header %q containing %q, but there are no headers"
              [ArgString key; ArgString needle]);;;
    ret (PtrResponseWrapper r)
  else
  let found := existsb (λ value, bool_decide (value = needle))
                       (header_index (RespHeader rp) key) in
  when (negb found)
       (rw_setError r
          (Errorf "expected a header %q containing %q, but it did not"
                  [ArgString key; ArgString needle]));;;
  ret (PtrResponseWrapper r).

Definition ExpectHeaderNotContains (r : loc) (key needle : string)
    : M ResponseWrapper :=
  do* e ← rw_error r;
  if e is Some _ then ret (PtrResponseWrapper r) else
  do* rp ← rw_resp r;
  if RespHeader rp is None then ret (PtrResponseWrapper r) else
  let found := existsb (λ value, strings_Contains value needle)
                       (header_index (RespHeader rp) key) in
  when found
       (rw_setError r
          (Errorf "expected a header %q to not contain %q, but it does"
                  [ArgString key; ArgString needle]));;;
  ret (PtrResponseWrapper r).

Definition ExpectHeaderNotEquals (r : loc) (key needle : string)
    : M ResponseWrapper :=
  do* e ← rw_error r;
  if e is Some _ then ret (PtrResponseWrapper r) else
  do* rp ← rw_resp r;
  let found := existsb (λ value, bool_decide (value = needle))
                       (header_index (RespHeader rp) key) in
  when found
       (rw_setError r
          (Errorf "expected a header %q to not be %q, but it is"
                  [ArgString key; ArgString needle]));;;
  ret (PtrResponseWrapper r).

Definition ExpectHeaderNotPresent (r : loc) (key : string)
    : M ResponseWrapper :=
  do* e ← rw_error r;
  if e is Some _ then ret (PtrResponseWrapper r) else
  do* rp ← rw_resp r;
  when (0 <? length (header_index (RespHeader rp) key))%nat
       (rw_setError r
          (Errorf "expected a header %q not to be present, but it was"
                  [ArgString key]));;;
  ret (PtrResponseWrapper r).

Definition ExpectHeaderPresent (r : loc) (key : string) : M ResponseWrapper :=
  do* e ← rw_error r;
  if e is Some _ then ret (PtrResponseWrapper r) else
  do* rp ← rw_resp r;
  if RespHeader rp is None then
    rw_setError r
      (Errorf "expected a header %q, but there are no headers"
              [ArgString key]);;;
    ret (PtrResponseWrapper r)
  else
  when (length (header_index (RespHeader rp) key) =? 0)%nat
       (rw_setError r
          (Errorf "expected a header %q to be present, but it was not"
                  [ArgString key]));;;
  ret (PtrResponseWrapper r).

Definition ExpectPasses (r : loc) (f : option Response → string → bool)
    : M ResponseWrapper :=
  do* e ← rw_error r;
  if e is Some _ then ret (PtrResponseWrapper r) else
  do* w ← get_wrapper r;
  log (EvPredicate (body w));;;
  when (negb (f (resp w) (body w)))
       (rw_setError r (Errorf "expected function to pass, but it did not" []));;;
  ret (PtrResponseWrapper r).

Definition ExpectStatus (r : loc) (code : Z) : M ResponseWrapper :=
  do* e ← rw_error r;
  if e is Some _ then ret (PtrResponseWrapper r) else
  do* rp ← rw_resp r;
  when (negb (StatusCode rp =? code)%Z)
       (rw_setError r (Errorf "expected status code %d but got %d"
                              [ArgInt code; ArgInt (StatusCode rp)]));;;
  ret (PtrResponseWrapper r).

(** [v] is the address of the destination; [json.Unmarshal] may write to
    it and may fail. *)
Definition ParseBody (r : loc) (v : loc) : M ResponseWrapper :=
  do* e ← rw_error r;
  if e is Some _ then ret (PtrResponseWrapper r) else
  do* w ← get_wrapper r;
  log (EvUnmarshal (body w) v);;;
  do* s ← get_store;
  let '(v', e') := json_Unmarshal env (body w) (vars s !! v) in
  (if v' is Some x then modify_store (with_vars (insert v x)) else ret tt);;;
  (if e' is Some x
   then rw_setError r (Errorf "unmarshalling body: %v" [ArgError x])
   else ret tt);;;
  ret (PtrResponseWrapper r).

(** ** The null inspector *)

Definition nop_Body (n : nopResponseWrapper) : string := "".
Definition nop_ExpectBodyContains (n : nopResponseWrapper) (_ : string)
  : ResponseWrapper := NopValue n.
Definition nop_ExpectBodyEquals (n : nopResponseWrapper) (_ : string)
  : ResponseWrapper := NopValue n.
Definition nop_ExpectBodyNotContains (n : nopResponseWrapper) (_ : string)
  : ResponseWrapper := NopValue n.
Definition nop_ExpectBodyNotEquals (n : nopResponseWrapper) (_ : string)
  : ResponseWrapper := NopValue n.
Definition nop_ExpectBodyPasses (n : nopResponseWrapper) (_ : string → bool)
  : ResponseWrapper := NopValue n.
Definition nop_ExpectHeaderContains (n : nopResponseWrapper)
  (key value : string) : ResponseWrapper := NopValue n.
Definition nop_ExpectHeaderEquals (n : nopResponseWrapper)
  (key value : string) : ResponseWrapper := NopValue n.
Definition nop_ExpectHeaderNotContains (n : nopResponseWrapper)
  (key value : string) : ResponseWrapper := NopValue n.
Definition nop_ExpectHeaderNotEquals (n : nopResponseWrapper)
  (key value : string) : ResponseWrapper := NopValue n.
Definition nop_ExpectHeaderNotPresent (n : nopResponseWrapper) (key : string)
  : ResponseWrapper := NopValue n.
Definition nop_ExpectHeaderPresent (n : nopResponseWrapper) (key : string)
  : ResponseWrapper := NopValue n.
Definition nop_ExpectPasses (n : nopResponseWrapper)
  (_ : option Response → string → bool) : ResponseWrapper := NopValue n.
Definition nop_ExpectStatus (n : nopResponseWrapper) (_ : Z)
  : ResponseWrapper := NopValue n.
Definition nop_ParseBody (n : nopResponseWrapper) (_ : loc)
  : ResponseWrapper := NopValue n.

(** ** Calls through the [ResponseWrapper] interface *)

Inductive Assertion : Type :=
| CallExpectBodyContains (needle : string)
| CallExpectBodyEquals (value : string)
| CallExpectBodyNotContains (needle : string)
| CallExpectBodyNotEquals (value : string)
| CallExpectBodyPasses (f : string → bool)
| CallExpectHeaderContains (key value : string)
| CallExpectHeaderEquals (key value : string)
| CallExpectHeaderNotContains (key value : string)
| CallExpectHeaderNotEquals (key value : string)
| CallExpectHeaderNotPresent (key : string)
| CallExpectHeaderPresent (key : string)
| CallExpectPasses (f : option Response → string → bool)
| CallExpectStatus (code : Z)
| CallParseBody (v : loc).

Definition rw_call (r : loc) (a : Assertion) : M ResponseWrapper :=
  match a with
  | CallExpectBodyContains x => ExpectBodyContains r x
  | CallExpectBodyEquals x => ExpectBodyEquals r x
  | CallExpectBodyNotContains x => ExpectBodyNotContains r x
  | CallExpectBodyNotEquals x => ExpectBodyNotEquals r x
  | CallExpectBodyPasses f => ExpectBodyPasses r f
  | CallExpectHeaderContains k v => ExpectHeaderContains r k v
  | CallExpectHeaderEquals k v => ExpectHeaderEquals r k v
  | CallExpectHeaderNotContains k v => ExpectHeaderNotContains r k v
  | CallExpectHeaderNotEquals k v => ExpectHeaderNotEquals r k v
  | CallExpectHeaderNotPresent k => ExpectHeaderNotPresent r k
  | CallExpectHeaderPresent k => ExpectHeaderPresent r k
  | CallExpectPasses f => ExpectPasses r f
  | CallExpectStatus code => ExpectStatus r code
  | CallParseBody v => ParseBody r v
  end.

Definition nop_call (n : nopResponseWrapper) (a : Assertion)
    : ResponseWrapper :=
  match a with
  | CallExpectBodyContains x => nop_ExpectBodyContains n x
  | CallExpectBodyEquals x => nop_ExpectBodyEquals n x
  | CallExpectBodyNotContains x => nop_ExpectBodyNotContains n x
  | CallExpectBodyNotEquals x => nop_ExpectBodyNotEquals n x
  | CallExpectBodyPasses f => nop_ExpectBodyPasses n f
  | CallExpectHeaderContains k v => nop_ExpectHeaderContains n k v
  | CallExpectHeaderEquals k v => nop_ExpectHeaderEquals n k v
  | CallExpectHeaderNotContains k v => nop_ExpectHeaderNotContains n k v
  | CallExpectHeaderNotEquals k v => nop_ExpectHeaderNotEquals n k v
  | CallExpectHeaderNotPresent k => nop_ExpectHeaderNotPresent n k
  | CallExpectHeaderPresent k => nop_ExpectHeaderPresent n k
  | CallExpectPasses f => nop_ExpectPasses n f
  | CallExpectStatus code => nop_ExpectStatus n code
  | CallParseBody v => nop_ParseBody n v
  end.

(** Dynamic dispatch; a method with a value receiver called through a
    pointer runs on the pointee. *)
Definition invoke (w : ResponseWrapper) (a : Assertion) : M ResponseWrapper :=
  match w with
  | PtrResponseWrapper r => rw_call r a
  | NopValue n | PtrNop n => ret (nop_call n a)
  end.

Definition invoke_Body (w : ResponseWrapper) : M string :=
  match w with
  | PtrResponseWrapper r => rw_Body r
  | NopValue n | PtrNop n => ret (nop_Body n)
  end.

(** ** Performing requests ([client.go], continued) *)

(** [&nopResponseWrapper{}] *)
Definition new_nop : ResponseWrapper := PtrNop NopResponseWrapper.

(** [c.httpClient.Do(req)]: the response comes with a fresh body stream,
    which net/http has closed already when it returns the response
    together with an error. *)
Definition httpClient_Do_call (c : loc) (req : Request)
    : M (option Response * option error) :=
  do* x ← get_client c;
  do* hc ← get_httpClient (httpClient x);
  do* s ← get_store;
  log (EvDo req);;;
  let '(raw, e) := httpClient_Do env (trace s) (Jar hc) req in
  match raw with
  | None => ret (None, e)
  | Some rr =>
      do* b ← alloc_body {| unread := raw_Body rr;
                             read_err := raw_ReadErr rr;
                             closed := if e is Some _ then true else false |};
      ret (Some {| StatusCode := raw_StatusCode rr;
                   RespHeader := raw_Header rr; Body := b |}, e)
  end.

Definition do (c : loc) (req : option Request) : M ResponseWrapper :=
  do* e ← errGetter_of c;
  if e is Some _ then
    do* x ← get_client c;
    newResponseWrapper None (MethodError c) (FieldErrSetter (errSetter x))
  else
  do* rq ← (if req is Some rq then ret rq else panic);
  do* res ← httpClient_Do_call c rq;
  (if res.2 is Some e' then errSetter_of c (Wrap e' "doing request")
   else ret tt);;;
  newResponseWrapper res.1 (MethodError c) (DoErrSetter c rq).

Definition doReq (c : loc) (method path : string) (body : option string)
    : M ResponseWrapper :=
  do* e ← errGetter_of c;
  if e is Some _ then ret new_nop else
  do* req ← buildReq c method path body;
  do c req.

Definition doReqJSON (c : loc) (method path : string) (body : any)
    : M ResponseWrapper :=
  do* e ← errGetter_of c;
  if e is Some _ then ret new_nop else
  log (EvMarshal body);;;
  match json_Marshal env body with
  | inr e' =>
      errSetter_of c (Wrap e' "marshalling JSON body");;;
      ret new_nop
  | inl bs => doReq c method path (Some bs)
  end.

Definition doReqString (c : loc) (method path : string) (body : string)
    : M ResponseWrapper :=
  do* e ← errGetter_of c;
  if e is Some _ then ret new_nop else
  doReq c method path (Some body).

(** [[]byte] bodies are byte strings as well. *)
Definition doReqBytes (c : loc) (method path : string) (body : string)
    : M ResponseWrapper :=
  do* e ← errGetter_of c;
  if e is Some _ then ret new_nop else
  doReq c method path (Some body).

Definition doReqNoBody (c : loc) (method path : string) : M ResponseWrapper :=
  do* e ← errGetter_of c;
  if e is Some _ then ret new_nop else
  doReq c method path None.

(** [req.Header.Add] on the nil request that [buildReq] returns on failure
    dereferences nil. *)
Definition doReqForm (c : loc) (method path : string)
    (body : list (string * list string)) : M ResponseWrapper :=
  do* e ← errGetter_of c;
  if e is Some _ then ret new_nop else
  do* req ← buildReq c method path (Some (Values_Encode env body));
  do* rq ← (if req is Some rq then ret rq else panic);
  do c (Some {| Method := Method rq; URL := URL rq;
                ReqHeader := Header_Add (ReqHeader rq) "Content-Type"
                               "application/x-www-form-urlencoded";
                ReqTimeout := ReqTimeout rq;
                ReqBody := ReqBody rq |}).

Definition MethodDelete := "DELETE".
Definition MethodGet := "GET".
Definition MethodPatch := "PATCH".
Definition MethodPost := "POST".
Definition MethodPut := "PUT".

Definition Delete c path := doReqNoBody c MethodDelete path.
Definition Get c path := doReqNoBody c MethodGet path.
Definition Patch c path body := doReqJSON c MethodPatch path body.
Definition Post c path body := doReqJSON c MethodPost path body.
Definition Put c path body := doReqJSON c MethodPut path body.
Definition PatchNoBody c path := doReqNoBody c MethodPatch path.
Definition PostNoBody c path := doReqNoBody c MethodPost path.
Definition PutNoBody c path := doReqNoBody c MethodPut path.
Definition PatchString c path body := doReqString c MethodPatch path body.
Definition PostString c path body := doReqString c MethodPost path body.
Definition PutString c path body := doReqString c MethodPut path body.
Definition PatchBytes c path body := doReqBytes c MethodPatch path body.
Definition PostBytes c path body := doReqBytes c MethodPost path body.
Definition PutBytes c path body := doReqBytes c MethodPut path body.
Definition PostForm c path body := doReqForm c MethodPost path body.

(** ** Calls through the [Client] interface *)

Inductive Action : Type :=
| CallDelete (path : string)
| CallGet (path : string)
| CallPatch (path : string) (body : any)
| CallPost (path : string) (body : any)
| CallPut (path : string) (body : any)
| CallPatchNoBody (path : string)
| CallPostNoBody (path : string)
| CallPutNoBody (path : string)
| CallPatchString (path body : string)
| CallPostString (path body : string)
| CallPutString (path body : string)
| CallPatchBytes (path body : string)
| CallPostBytes (path body : string)
| CallPutBytes (path body : string)
| CallPostForm (path : string) (body : list (string * list string)).

Definition act (c : loc) (a : Action) : M ResponseWrapper :=
  match a with
  | CallDelete p => Delete c p
  | CallGet p => Get c p
  | CallPatch p b => Patch c p b
  | CallPost p b => Post c p b
  | CallPut p b => Put c p b
  | CallPatchNoBody p => PatchNoBody c p
  | CallPostNoBody p => PostNoBody c p
  | CallPutNoBody p => PutNoBody c p
  | CallPatchString p b => PatchString c p b
  | CallPostString p b => PostString c p b
  | CallPutString p b => PutString c p b
  | CallPatchBytes p b => PatchBytes c p b
  | CallPostBytes p b => PostBytes c p b
  | CallPutBytes p b => PutBytes c p b
  | CallPostForm p b => PostForm c p b
  end.

Inductive Config : Type :=
| CallNoBasicAuth
| CallUseBasicAuth (user pass : string)
| CallUseCookies (use : bool)
| CallWithHeader (key value : string)
| CallWithTimeout (t : Z)
| CallClone.

Definition configure (c : loc) (a : Config) : M loc :=
  match a with
  | CallNoBasicAuth => NoBasicAuth c
  | CallUseBasicAuth u p => UseBasicAuth c u p
  | CallUseCookies b => UseCookies c b
  | CallWithHeader k v => WithHeader c k v
  | CallWithTimeout t => WithTimeout c t
  | CallClone => Clone c
  end.

End Crest.

(** ** A test double for the collaborators

    Enough of net/http and encoding/json to run scenarios by computation:
    header keys are canonicalised letter by letter, a URL that starts with
    a colon does not parse, a host named [down] refuses the connection and
    every other request is answered with status 200. *)

Definition is_lower (a : ascii) : bool :=
  (97 <=? nat_of_ascii a)%nat && (nat_of_ascii a <=? 122)%nat.
Definition is_upper (a : ascii) : bool :=
  (65 <=? nat_of_ascii a)%nat && (nat_of_ascii a <=? 90)%nat.
Definition to_upper (a : ascii) : ascii :=
  if is_lower a then ascii_of_nat (nat_of_ascii a - 32) else a.
Definition to_lower (a : ascii) : ascii :=
  if is_upper a then ascii_of_nat (nat_of_ascii a + 32) else a.

Fixpoint canonical_from (upper : bool) (s : string) : string :=
  match s with
  | EmptyString => EmptyString
  | String a s' =>
      let a' := if upper then to_upper a else to_lower a in
      String a' (canonical_from (Ascii.eqb a' "-") s')
  end.

Definition test_Do (_ : list Event) (_ : option loc) (req : Request)
    : option RawResponse * option error :=
  if strings_Contains (URL req) "//down/"
  then (None, Some (External "connection refused"))
  else (Some {| raw_StatusCode := 200;
                raw_Header := Some {[ "Auth" := ["password"] ]};
                raw_Body := "some body";
                raw_ReadErr := None |}, None).

Definition test_env : Env :=
  {| CanonicalMIMEHeaderKey := canonical_from true;
     http_NewRequest_err := λ _ url,
       if String.prefix ":" url
       then Some (External "missing protocol scheme") else None;
     URL_String := id;
     httpClient_Do := test_Do;
     basicAuth := λ user pass, user +:+ ":" +:+ pass;
     cookiejar_New_err := None;
     json_Marshal := λ v,
       match v with
       | AnyFunc => inr (External "json: unsupported type: func()")
       | AnyString s => inl s
       | _ => inl "null"
       end;
     json_Unmarshal := λ data v,
       if String.prefix "{" data then (Some (AnyString data), None)
       else (v, Some (External "invalid character"));
     Values_Encode := λ _, "" |}.

(** ** Vocabulary for the statements *)

Definition store_of {A} (o : Outcome A) : Store :=
  match o with Ret _ s | Panic s => s end.
Definition value_of {A} (o : Outcome A) : option A :=
  match o with Ret a _ => Some a | Panic _ => None end.

(** The client whose [err] field a wrapper's accessor reads, and the one
    its setter writes. *)
Definition getter_cell (s : Store) (g : errCheckerFn) : option loc :=
  match g with
  | MethodError c =>
      x ← clients s !! c;
      match errGetter x with ErrGetterOf cl => Some cl end
  end.
Definition setter_cell (s : Store) (f : setErrorFn) : option loc :=
  match f with
  | FieldErrSetter (ErrSetterOf cl) => Some cl
  | DoErrSetter c _ =>
      x ← clients s !! c;
      match errSetter x with ErrSetterOf cl => Some cl end
  end.

(** The error as the setter [f] records it for the cause [e]. *)
Definition recorded (env : Env) (f : setErrorFn) (e : error) : error :=
  match f with
  | FieldErrSetter _ => e
  | DoErrSetter _ req =>
      Wrapf e "doing a %v request to URL %q"
            [ArgString (Method req); ArgString (URL_String env (URL req))]
  end.

(** Whether the text [sub] occurs in the message of [e] or of one of its
    causes, arguments of format verbs apart. *)
Fixpoint mentions (sub : string) (e : error) : bool :=
  match e with
  | External msg => strings_Contains msg sub
  | Errorf format _ => strings_Contains format sub
  | Wrap cause message => strings_Contains message sub || mentions sub cause
  | Wrapf cause format _ => strings_Contains format sub || mentions sub cause
  end.

(** A builder that failed to build its request, with an inspector on it. *)
Definition failed_builder : M ResponseWrapper :=
  do* c ← NewClient ":";
  Get test_env c "/p".
Definition failed_store : Store := store_of (failed_builder empty_store).

(** The sticky error a call on builder [c] would see, when [c] and the
    client its accessor captured are live. *)
Definition peek_err (s : Store) (c : loc) : option (option error) :=
  x ← clients s !! c;
  match errGetter x with
  | ErrGetterOf cl => y ← clients s !! cl; Some (err y)
  end.

(** The URLs of the requests handed to the transport, latest first. *)
Definition requested_URLs (s : Store) : list string :=
  omap (λ ev, if ev is EvDo req then Some (URL req) else None) (trace s).

Definition get_from (base path : string) : M ResponseWrapper :=
  do* c ← NewClient base;
  Get test_env c path.

(** An inspector built around a live response by a builder that already
    failed. *)
Definition inspect_after_error : M ResponseWrapper :=
  do* _ ← failed_builder;
  do* b ← alloc_body {| unread := "some body"; read_err := None;
                         closed := false |};
  newResponseWrapper test_env
    (Some {| StatusCode := 200; RespHeader := None; Body := b |})
    (MethodError 0) (FieldErrSetter (ErrSetterOf 0)).

(** A healthy builder and a response whose body fails to read. *)
Definition inspect_failing_body : M ResponseWrapper :=
  do* c ← NewClient "http://x";
  do* b ← alloc_body {| unread := "";
                         read_err := Some (External "read error");
                         closed := false |};
  newResponseWrapper test_env
    (Some {| StatusCode := 200; RespHeader := None; Body := b |})
    (MethodError c) (FieldErrSetter (ErrSetterOf c)).

(** A healthy builder at address 0 next to a body stream at address 0. *)
Definition healthy_store (st : BodyStream) : Store :=
  store_of ((do* c ← NewClient "http://x"; alloc_body st) empty_store).
Definition good_stream : BodyStream :=
  {| unread := "some body"; read_err := None; closed := false |}.
Definition bad_stream : BodyStream :=
  {| unread := ""; read_err := Some (External "read error");
     closed := false |}.
Definition sample_response (h : option Header) : Response :=
  {| StatusCode := 200; RespHeader := h; Body := 0 |}.

(** The store after the setter [f] recorded [e] in the cell [cl]. *)
Definition record_failure (env : Env) (s : Store) (cl : loc) (y : client)
    (f : setErrorFn) (e : error) : Store :=
  with_clients (insert cl (set_err (Some (recorded env f e)) y)) s.

(** A healthy builder with an inspector (at address 0) on a response with
    the headers [h]. *)
Definition inspected_store (h : option Header) : Store :=
  store_of (newResponseWrapper test_env (Some (sample_response h))
              (MethodError 0) (FieldErrSetter (ErrSetterOf 0))
              (healthy_store good_stream)).
Definition healthy_client : client :=
  {| baseURL := "http://x"; httpClient := 0; err := None;
     errGetter := ErrGetterOf 0; errSetter := ErrSetterOf 0;
     useBasicAuth := false; basicAuthUser := ""; basicAuthPass := "";
     useCookies := false; headers := None; timeout := 0 |}.

Definition inspector_on (h : option Header) : responseWrapper :=
  {| error_ := MethodError 0; setError := FieldErrSetter (ErrSetterOf 0);
     resp := Some (sample_response h); body := "some body" |}.
Definition auth_header : Header := {[ "Auth" := ["password"] ]}.

(** The client whose [err] field both closures of builder [x] capture. *)
Definition channel_of (x : client) : option loc :=
  match errGetter x, errSetter x with
  | ErrGetterOf a, ErrSetterOf b => if decide (a = b) then Some a else None
  end.

(** Every key of the builder's header map is in canonical form, as
    [Header.Add] leaves it. *)
Definition headers_canonical (env : Env) (x : client) : Prop :=
  from_option (map_Forall (λ k _, CanonicalMIMEHeaderKey env k = k)) True
              (headers x).

(** The store after the error [e] was recorded in the cell [cl]. *)
Definition builder_failure (s : Store) (cl : loc) (y : client) (e : error)
    : Store :=
  with_clients (insert cl (set_err (Some e) y)) s.

(** The configuration calls that act on the builder's own fields. *)
Definition own_fields (a : Config) : bool :=
  match a with
  | CallUseCookies _ => false
  | _ => true
  end.

(** A builder is cloned, and the clone's request is refused. *)
Definition clone_then_fail : M (loc * loc * option error * option error) :=
  do* c ← NewClient "http://down";
  do* e0 ← Error c;
  do* c' ← Clone test_env c;
  do* _ ← Get test_env c' "/p";
  do* e1 ← Error c;
  ret (c, c', e0, e1).

(** A builder is cloned, and the clone turns cookies on. *)
Definition clone_then_cookies : M (option http_Client * option http_Client) :=
  do* c ← NewClient "http://x";
  do* x ← get_client c;
  do* s0 ← get_store;
  do* c' ← Clone test_env c;
  do* _ ← UseCookies test_env c' true;
  do* s1 ← get_store;
  ret (httpClients s0 !! httpClient x, httpClients s1 !! httpClient x).

(** The parts of an action call: verb, path, and the body reader it hands
    to [buildReq] ([inl None] is the nil reader) or the error of
    [json.Marshal]. *)
Definition action_method (a : Action) : string :=
  match a with
  | CallDelete _ => MethodDelete
  | CallGet _ => MethodGet
  | CallPatch _ _ | CallPatchNoBody _ | CallPatchString _ _
  | CallPatchBytes _ _ => MethodPatch
  | CallPost _ _ | CallPostNoBody _ | CallPostString _ _
  | CallPostBytes _ _ | CallPostForm _ _ => MethodPost
  | CallPut _ _ | CallPutNoBody _ | CallPutString _ _
  | CallPutBytes _ _ => MethodPut
  end.

Definition action_path (a : Action) : string :=
  match a with
  | CallDelete p | CallGet p | CallPatch p _ | CallPost p _ | CallPut p _
  | CallPatchNoBody p | CallPostNoBody p | CallPutNoBody p
  | CallPatchString p _ | CallPostString p _ | CallPutString p _
  | CallPatchBytes p _ | CallPostBytes p _ | CallPutBytes p _
  | CallPostForm p _ => p
  end.

Definition action_payload (env : Env) (a : Action) : option string + error :=
  match a with
  | CallDelete _ | CallGet _ | CallPatchNoBody _ | CallPostNoBody _
  | CallPutNoBody _ => inl None
  | CallPatch _ b | CallPost _ b | CallPut _ b =>
      match json_Marshal env b with
      | inl bs => inl (Some bs)
      | inr e => inr e
      end
  | CallPatchString _ b | CallPostString _ b | CallPutString _ b
  | CallPatchBytes _ b | CallPostBytes _ b | CallPutBytes _ b => inl (Some b)
  | CallPostForm _ b => inl (Some (Values_Encode env b))
  end.

Definition is_form (a : Action) : bool :=
  if a is CallPostForm _ _ then true else false.

(** The URL [buildPath] computes for builder [x]. *)
Definition target (x : client) (path : string) : string :=
  baseURL x +:+ "/" +:+ strings_TrimPrefix path "/".

(** The request [populateReq] makes of a fresh request for builder [x]. *)
Definition populated (env : Env) (x : client) (method path : string)
    (body : option string) : Request :=
  {| Method := method; URL := target x path;
     ReqHeader :=
       add_each env (headers x)
         (if useBasicAuth x
          then SetBasicAuth env ∅ (basicAuthUser x) (basicAuthPass x)
          else ∅);
     ReqTimeout := if (0 <? timeout x)%Z then Some (timeout x) else None;
     ReqBody := body |}.

Definition with_content_type (env : Env) (rq : Request) : Request :=
  {| Method := Method rq; URL := URL rq;
     ReqHeader := Header_Add env (ReqHeader rq) "Content-Type"
                    "application/x-www-form-urlencoded";
     ReqTimeout := ReqTimeout rq;
     ReqBody := ReqBody rq |}.

(** The request an action of builder [x] sends. *)
Definition request_for (env : Env) (x : client) (a : Action)
    (body : option string) : Request :=
  let rq := populated env x (action_method a) (action_path a) body in
  if is_form a then with_content_type env rq else rq.

(** In store [s'], [w] is an inspector around no response and both the
    builder [c] and [w]'s accessor report the error [e]. *)
Definition absent_response_inspector (s' : Store) (c : loc)
    (w : ResponseWrapper) (e : error) : Prop :=
  Error c s' = Ret (Some e) s' ∧
  ∃ r rw, w = PtrResponseWrapper r ∧ wrappers s' !! r = Some rw ∧
          resp rw = None ∧ body rw = "" ∧
          rw_error r s' = Ret (Some e) s'.

(** A JSON body that does not marshal, and a form posted to a URL that does
    not parse. *)
Definition post_func : M ResponseWrapper :=
  do* c ← NewClient "http://x";
  Post test_env c "/p" AnyFunc.
Definition post_form_bad_url : M ResponseWrapper :=
  do* c ← NewClient ":";
  PostForm test_env c "/p" [].

Definition panicked {A} (o : Outcome A) : bool :=
  if o is Panic _ then true else false.

Definition bad_url_client : client :=
  {| baseURL := ":"; httpClient := 0; err := None;
     errGetter := ErrGetterOf 0; errSetter := ErrSetterOf 0;
     useBasicAuth := false; basicAuthUser := ""; basicAuthPass := "";
     useCookies := false; headers := None; timeout := 0 |}.

(** A builder with one header. *)
Definition api_store : Store :=
  store_of ((do* c ← NewClient "http://x";
             WithHeader test_env c "x-api-key" "12345") empty_store).
Definition api_client : client :=
  {| baseURL := "http://x"; httpClient := 0; err := None;
     errGetter := ErrGetterOf 0; errSetter := ErrSetterOf 0;
     useBasicAuth := false; basicAuthUser := ""; basicAuthPass := "";
     useCookies := false;
     headers := Some {[ "X-Api-Key" := ["12345"] ]}; timeout := 0 |}.

(** ** Vocabulary for frames and chains *)

(** The calls that reach the network or a body stream. *)
Definition is_Do (ev : Event) : bool := if ev is EvDo _ then true else false.
Definition is_io (ev : Event) : bool :=
  match ev with
  | EvDo _ | EvReadAll _ => true
  | _ => false
  end.
Definition transport_calls (s : Store) : nat :=
  length (List.filter is_Do (trace s)).
Definition io_events (s : Store) : list Event := List.filter is_io (trace s).

(** [m] takes every store to one related to it by [R], also when it
    panics. *)
Definition keeps (R : Store → Store → Prop) {A} (m : M A) : Prop :=
  ∀ s, R s (store_of (m s)).

(** What an assertion may change: the [err] fields, the decoding
    destinations and the trace of calls other than I/O. *)
Definition assertion_frame (s s' : Store) : Prop :=
  bodies s' = bodies s ∧ wrappers s' = wrappers s ∧
  httpClients s' = httpClients s ∧ jars s' = jars s ∧
  io_events s' = io_events s ∧
  set_err None <$> clients s' = set_err None <$> clients s.

Definition same_calls (s s' : Store) : Prop :=
  transport_calls s' = transport_calls s.
Definition one_more_call (s s' : Store) : Prop :=
  (transport_calls s' ≤ S (transport_calls s))%nat.

(** Assertions called one after the other, each on the result of the one
    before. *)
Fixpoint chain (env : Env) (w : ResponseWrapper) (l : list Assertion)
    : M ResponseWrapper :=
  match l with
  | [] => ret w
  | a :: l' => do* w' ← invoke env w a; chain env w' l'
  end.

(** Whether inspector [r] still reports no error after the assertion [a]. *)
Definition passes (env : Env) (r : loc) (a : Assertion) (s : Store) : bool :=
  match rw_call env r a s with
  | Ret _ s' => if rw_error r s' is Ret None _ then true else false
  | Panic _ => false
  end.

(** The marshalling an action logs before it builds its request. *)
Definition marshal_events (a : Action) : list Event :=
  match a with
  | CallPatch _ b | CallPost _ b | CallPut _ b => [EvMarshal b]
  | _ => []
  end.

(** The response the transport's answer [raw] becomes, its body stream
    being at [b]. *)
Definition response_of (raw : RawResponse) (b : loc) : Response :=
  {| StatusCode := raw_StatusCode raw; RespHeader := raw_Header raw;
     Body := b |}.

(** The answer of the test transport, and a fresh healthy builder. *)
Definition test_answer : RawResponse :=
  {| raw_StatusCode := 200;
     raw_Header := Some {[ "Auth" := ["password"] ]};
     raw_Body := "some body";
     raw_ReadErr := None |}.
Definition fresh_store : Store := store_of (NewClient "http://x" empty_store).

(** A transport whose answers cannot be read. *)
Definition unreadable_env : Env :=
  {| CanonicalMIMEHeaderKey := CanonicalMIMEHeaderKey test_env;
     http_NewRequest_err := http_NewRequest_err test_env;
     URL_String := URL_String test_env;
     httpClient_Do := λ _ _ _,
       (Some {| raw_StatusCode := 200; raw_Header := None; raw_Body := "";
                raw_ReadErr := Some (External "read error") |}, None);
     basicAuth := basicAuth test_env;
     cookiejar_New_err := Some (External "no jar");
     json_Marshal := json_Marshal test_env;
     json_Unmarshal := json_Unmarshal test_env;
     Values_Encode := Values_Encode test_env |}.

(** A transport that returns its answer together with an error. *)
Definition redirect_env : Env :=
  {| CanonicalMIMEHeaderKey := CanonicalMIMEHeaderKey test_env;
     http_NewRequest_err := http_NewRequest_err test_env;
     URL_String := URL_String test_env;
     httpClient_Do := λ _ _ _,
       (Some {| raw_StatusCode := 302; raw_Header := None; raw_Body := "";
                raw_ReadErr := None |}, Some (External "redirect refused"));
     basicAuth := basicAuth test_env;
     cookiejar_New_err := None;
     json_Marshal := json_Marshal test_env;
     json_Unmarshal := json_Unmarshal test_env;
     Values_Encode := Values_Encode test_env |}.

(** ** Running the monad *)

Lemma bind_Ret {A B} (m : M A) (k : A → M B) s a s' :
  m s = Ret a s' → bind m k s = k a s'.
Proof. intros H. unfold bind. by rewrite H. Qed.

Lemma bind_Panic {A B} (m : M A) (k : A → M B) s s' :
  m s = Panic s' → bind m k s = Panic s'.
Proof. intros H. unfold bind. by rewrite H. Qed.

Lemma bind_Ret_inv {A B} (m : M A) (k : A → M B) s b s2 :
  bind m k s = Ret b s2 → ∃ a s1, m s = Ret a s1 ∧ k a s1 = Ret b s2.
Proof. unfold bind. destruct (m s) as [a s1|s1]; [eauto | done]. Qed.

(** ** C1: a builder that holds an error ignores every call *)

(** C1. For a builder [c] whose sticky error is [E], every configuration
    method and [Clone] return [c] itself and every action method returns
    the null inspector, all of them in the unchanged store: the error is
    still [E] and no field of any builder has moved. *)
Theorem sticky_error_absorbs_calls (env : Env) (s : Store) (c : loc)
    (E : error) :
  Error c s = Ret (Some E) s →
  (∀ a : Config, configure env c a s = Ret c s) ∧
  (∀ a : Action, act env c a s = Ret new_nop s) ∧
  Error c s = Ret (Some E) s.
Proof.
  unfold Error. intros H. split_and!; [| |done].
  - intros [].
    all: cbn [configure]; unfold NoBasicAuth, UseBasicAuth, UseCookies,
           WithHeader, WithTimeout, Clone.
    all: by rewrite (bind_Ret _ _ _ _ _ H).
  - intros [].
    all: cbn [act]; unfold Delete, Get, Patch, Post, Put, PatchNoBody,
           PostNoBody, PutNoBody, PatchString, PostString, PutString,
           PatchBytes, PostBytes, PutBytes, PostForm, doReqNoBody, doReqJSON,
           doReqString, doReqBytes, doReqForm.
    all: by rewrite (bind_Ret _ _ _ _ _ H).
Qed.

Lemma sticky_error_absorbs_calls_witness :
  (∀ a : Config, configure test_env 0 a failed_store = Ret 0 failed_store) ∧
  (∀ a : Action, act test_env 0 a failed_store = Ret new_nop failed_store) ∧
  Error 0 failed_store
  = Ret (Some (Wrap (External "missing protocol scheme") "creating request"))
        failed_store.
Proof.
  apply (sticky_error_absorbs_calls test_env failed_store 0).
  vm_compute. reflexivity.
Defined.

(** ** C8: an inspector whose channel reports an error ignores assertions *)

(** C8. If the error accessor of inspector [r] reports an error, every
    assertion method returns [r] in the unchanged store: no predicate call
    and no decoding enters the trace, the error is the one reported before
    and the destination of [ParseBody] keeps its content. *)
Theorem pending_error_skips_assertions (env : Env) (s : Store) (r : loc)
    (E : error) (a : Assertion) :
  rw_error r s = Ret (Some E) s →
  rw_call env r a s = Ret (PtrResponseWrapper r) s.
Proof.
  intros H. destruct a; cbn [rw_call].
  all: unfold ExpectBodyContains, ExpectBodyEquals, ExpectBodyNotContains,
         ExpectBodyNotEquals, ExpectBodyPasses, ExpectHeaderContains,
         ExpectHeaderEquals, ExpectHeaderNotContains, ExpectHeaderNotEquals,
         ExpectHeaderNotPresent, ExpectHeaderPresent, ExpectPasses,
         ExpectStatus, ParseBody.
  all: by rewrite (bind_Ret _ _ _ _ _ H).
Qed.

Lemma pending_error_skips_assertions_witness :
  rw_call test_env 0 (CallParseBody 7) failed_store
  = Ret (PtrResponseWrapper 0) failed_store.
Proof.
  apply (pending_error_skips_assertions test_env failed_store 0
           (Wrap (External "missing protocol scheme") "creating request")).
  vm_compute. reflexivity.
Defined.

(** ** C9: the null inspector *)

(** C9, as the code has it.  Every method of a null inspector value
    returns that same value whatever its arguments, called directly or
    through the interface, where the store is left as it was; [Body] is the
    empty string.  Called through the pointer that the action methods
    return, a method answers with the value pointed to, not with the
    pointer, and leaves the store as it was as well. *)
Theorem nop_absorbs_calls (env : Env) (n : nopResponseWrapper)
    (a : Assertion) (s : Store) :
  nop_call n a = NopValue n ∧
  invoke env (NopValue n) a s = Ret (NopValue n) s ∧
  nop_Body n = "" ∧
  invoke_Body (NopValue n) s = Ret "" s ∧
  invoke env (PtrNop n) a s = Ret (NopValue n) s ∧
  invoke_Body (PtrNop n) s = Ret "" s.
Proof. by destruct a. Qed.

(** C9 as stated fails for the null inspector an action returns: it is a
    pointer, and a method called on it returns the value, which is another
    interface value. *)
Lemma nop_pointer_is_not_returned :
  value_of (act test_env 0 (CallGet "/again") failed_store)
  = Some (PtrNop NopResponseWrapper) ∧
  invoke test_env (PtrNop NopResponseWrapper) (CallExpectStatus 200)
    failed_store
  = Ret (NopValue NopResponseWrapper) failed_store ∧
  invoke test_env (PtrNop NopResponseWrapper) (CallExpectStatus 200)
    failed_store
  ≠ Ret (PtrNop NopResponseWrapper) failed_store.
Proof. split_and!; [by vm_compute | done | done]. Qed.

(** The pointer that the action methods return forwards to the same value
    methods, which answer with the value. *)
Lemma nop_pointer_forwards (env : Env) (n : nopResponseWrapper)
    (a : Assertion) (s : Store) :
  invoke env (PtrNop n) a s = Ret (NopValue n) s.
Proof. by destruct a. Qed.

(** ** C4: the target URL *)

Lemma substring_all (q : string) : String.substring 0 (String.length q) q = q.
Proof. induction q as [|a q IH]; [done|]. cbn. by rewrite IH. Qed.

Lemma TrimPrefix_slash (q : string) : strings_TrimPrefix ("/" +:+ q) "/" = q.
Proof.
  change ("/" +:+ q) with (String "/" q).
  unfold strings_TrimPrefix. cbn.
  destruct q as [|a q]; [done|].
  rewrite Nat.sub_0_r. apply (substring_all (String a q)).
Qed.

Lemma TrimPrefix_no_slash (p : string) :
  String.prefix "/" p = false → strings_TrimPrefix p "/" = p.
Proof. unfold strings_TrimPrefix. by intros ->. Qed.

(** C4, as the code has it.  For every path, the target is the base URL,
    one slash, and the path less one leading slash of its own: a path that
    starts with a slash loses that one slash and no more, any other path is
    taken whole, and nothing is removed from the end of the base URL.  The
    request built for any method carries the URL so computed. *)
Theorem buildPath_joins (env : Env) (s : Store) (c : loc) (x : client) :
  clients s !! c = Some x →
  (∀ q, buildPath c ("/" +:+ q) s = Ret (baseURL x +:+ "/" +:+ q) s) ∧
  (∀ p, String.prefix "/" p = false →
        buildPath c p s = Ret (baseURL x +:+ "/" +:+ p) s) ∧
  (∀ p, String.prefix "/" p = true → ∃ q, p = "/" +:+ q) ∧
  (∀ p method body, ∃ url,
     buildPath c p s = Ret url s ∧
     (http_NewRequest_err env method url = None →
      ∃ req, buildReq env c method p body s = Ret (Some req) s ∧
             URL req = url)).
Proof.
  intros Hc.
  assert (Hb : ∀ p, buildPath c p s
               = Ret (baseURL x +:+ "/" +:+ strings_TrimPrefix p "/") s).
  { intros p. unfold buildPath, bind, get_client, deref. by rewrite Hc. }
  split_and!.
  - intros q. by rewrite Hb, TrimPrefix_slash.
  - intros p Hp. by rewrite Hb, TrimPrefix_no_slash.
  - intros [|a p] Hp; [done|].
    change (String.prefix "/" (String a p))
      with (match Ascii.ascii_dec "/"%char a with
            | left _ => String.prefix "" p
            | right _ => false
            end) in Hp.
    destruct (Ascii.ascii_dec "/"%char a) as [<-|]; [|done].
    by exists p.
  - intros p method body. eexists. split; [apply Hb|].
    intros Hnew. eexists.
    unfold buildReq. rewrite (bind_Ret _ _ _ _ _ (Hb _)), Hnew.
    unfold populateReq, bind, get_client, deref. rewrite Hc. cbn. done.
Qed.

Lemma buildPath_joins_witness :
  let s := store_of (NewClient "http://x" empty_store) in
  buildPath 0 "/p" s = Ret "http://x/p" s ∧
  buildPath 0 "p" s = Ret "http://x/p" s ∧
  buildPath 0 "//p" s = Ret "http://x//p" s.
Proof.
  intros s.
  destruct (buildPath_joins test_env s 0
              {| baseURL := "http://x"; httpClient := 0; err := None;
                 errGetter := ErrGetterOf 0; errSetter := ErrSetterOf 0;
                 useBasicAuth := false; basicAuthUser := "";
                 basicAuthPass := ""; useCookies := false; headers := None;
                 timeout := 0 |})
    as (H1 & H2 & _); [reflexivity |].
  split_and!.
  - exact (H1 "p").
  - exact (H2 "p" eq_refl).
  - exact (H1 "/p").
Defined.

(** C4 as stated fails: a base URL that ends with a slash keeps it, and the
    request goes to a URL with two slashes at the seam. *)
Lemma buildPath_keeps_trailing_slash :
  value_of ((do* c ← NewClient "http://x/"; buildPath c "/p") empty_store)
  = Some "http://x//p" ∧
  requested_URLs (store_of (get_from "http://x/" "/p" empty_store))
  = ["http://x//p"] ∧
  requested_URLs (store_of (get_from "http://x" "p" empty_store))
  = ["http://x/p"] ∧
  requested_URLs (store_of (get_from "http://x/" "/p" empty_store))
  ≠ requested_URLs (store_of (get_from "http://x" "p" empty_store)).
Proof. vm_compute. split_and!; done. Qed.

(** ** The shared error channel *)

Lemma Error_peek (s : Store) (c : loc) :
  Error c s = match peek_err s c with
              | Some e => Ret e s
              | None => Panic s
              end.
Proof.
  unfold Error, errGetter_of, peek_err, bind, get_client, deref.
  destruct (clients s !! c) as [x|]; [|done]. cbn.
  destruct (errGetter x) as [cl]. cbn.
  unfold bind, get_client, deref.
  by destruct (clients s !! cl).
Qed.

Lemma Error_inv (s s' : Store) (c : loc) (e : option error) :
  Error c s = Ret e s' → s' = s ∧ peek_err s c = Some e.
Proof.
  rewrite Error_peek. destruct (peek_err s c); [|done].
  by intros [= -> ->].
Qed.

Lemma peek_err_cell (s : Store) (c cl : loc) (y : client) :
  getter_cell s (MethodError c) = Some cl →
  clients s !! cl = Some y →
  peek_err s c = Some (err y).
Proof.
  unfold getter_cell, peek_err. destruct (clients s !! c) as [x|]; [|done].
  cbn. destruct (errGetter x) as [cl']. intros [= ->] Hy. by rewrite Hy.
Qed.

Lemma call_errChecker_cell (s : Store) (g : errCheckerFn) (cl : loc)
    (y : client) :
  getter_cell s g = Some cl →
  clients s !! cl = Some y →
  call_errChecker g s = Ret (err y) s.
Proof.
  destruct g as [c]. intros Hg Hy. cbn [call_errChecker].
  by rewrite Error_peek, (peek_err_cell _ _ _ _ Hg Hy).
Qed.

(** The accessor only reads the builders. *)
Lemma call_errChecker_frame (s s1 : Store) (g : errCheckerFn) :
  clients s1 = clients s →
  call_errChecker g s1 = match call_errChecker g s with
                         | Ret e _ => Ret e s1
                         | Panic _ => Panic s1
                         end.
Proof.
  destruct g as [c]. intros Hc. cbn [call_errChecker].
  rewrite !Error_peek. unfold peek_err. rewrite Hc.
  by destruct (_ ≫= _).
Qed.

Lemma call_errSetter_run (s : Store) (cl : loc) (y : client) (e : error) :
  clients s !! cl = Some y →
  call_errSetter (ErrSetterOf cl) e s
  = Ret tt (with_clients (insert cl (set_err (Some e) y)) s).
Proof.
  intros Hy. cbn [call_errSetter].
  unfold update_client, bind, get_client, deref. by rewrite Hy.
Qed.

Lemma call_setError_cell (env : Env) (s : Store) (f : setErrorFn) (cl : loc)
    (y : client) (e : error) :
  setter_cell s f = Some cl →
  clients s !! cl = Some y →
  call_setError env f e s
  = Ret tt (with_clients (insert cl (set_err (Some (recorded env f e)) y)) s).
Proof.
  intros Hf Hy. destruct f as [[cl']|c req]; cbn in Hf |- *.
  - injection Hf as ->. by apply call_errSetter_run.
  - unfold errSetter_of, bind, get_client, deref.
    destruct (clients s !! c) as [x|]; [|done]. cbn in Hf.
    destruct (errSetter x) as [cl']. injection Hf as ->.
    by apply call_errSetter_run.
Qed.

(** Recording an error does not move the channel. *)
Lemma getter_cell_set_err (s : Store) (g : errCheckerFn) (cl cl' : loc)
    (y : client) (e : option error) :
  clients s !! cl' = Some y →
  getter_cell s g = Some cl →
  getter_cell (with_clients (insert cl' (set_err e y)) s) g = Some cl.
Proof.
  destruct g as [c]. unfold getter_cell. cbn. intros Hy.
  destruct (decide (cl' = c)) as [->|Hne].
  - rewrite lookup_insert_eq, Hy. done.
  - by rewrite lookup_insert_ne.
Qed.

(** After the setter ran, the accessor on the same cell reports the error. *)
Lemma checker_after_setter (s : Store) (g : errCheckerFn) (cl : loc)
    (y : client) (e : error) :
  getter_cell s g = Some cl →
  clients s !! cl = Some y →
  call_errChecker g (with_clients (insert cl (set_err (Some e) y)) s)
  = Ret (Some e) (with_clients (insert cl (set_err (Some e) y)) s).
Proof.
  intros Hg Hy.
  rewrite (call_errChecker_cell _ g cl (set_err (Some e) y)); [done| |].
  - by apply getter_cell_set_err.
  - cbn. by rewrite lookup_insert_eq.
Qed.

(** ** Construction of the inspector *)

Section Construction.
Context (env : Env) (s : Store) (g : errCheckerFn) (f : setErrorFn).

Lemma newResponseWrapper_existing_error (resp : option Response) (E : error) :
  call_errChecker g s = Ret (Some E) s →
  newResponseWrapper env resp g f s
  = Ret (PtrResponseWrapper (fresh (dom (wrappers s))))
        (with_wrappers (insert (fresh (dom (wrappers s)))
           {| error_ := g; setError := f; resp := resp;
                                    body := "" |}) s).
Proof.
  intros H. unfold newResponseWrapper, bind at 1, alloc_wrapper.
  unfold bind at 1. rewrite (call_errChecker_frame s); [|done].
  by rewrite H.
Qed.

Lemma newResponseWrapper_read_ok (rp : Response) (st : BodyStream) :
  call_errChecker g s = Ret None s →
  bodies s !! Body rp = Some st →
  read_err st = None →
  newResponseWrapper env (Some rp) g f s
  = Ret (PtrResponseWrapper (fresh (dom (wrappers s))))
        {| clients := clients s; httpClients := httpClients s;
           wrappers := <[fresh (dom (wrappers s)) := {| error_ := g; setError := f;
                                 resp := Some rp; body := unread st |}]>
                         (wrappers s);
           bodies := <[Body rp := {| unread := ""; read_err := None;
                                    closed := closed st |}]> (bodies s);
           vars := vars s; jars := jars s;
           trace := EvReadAll (Body rp) :: trace s |}.
Proof.
  intros H Hb Hr. unfold newResponseWrapper, bind at 1, alloc_wrapper.
  unfold bind at 1. rewrite (call_errChecker_frame s); [|done].
  rewrite H. unfold bind at 1, ret at 1.
  unfold ioutil_ReadAll, bind, log, modify_store, get_body, deref. cbn.
  rewrite Hb, Hr. cbn.
  unfold update_wrapper, bind, get_wrapper, deref, modify_store, ret. cbn.
  rewrite lookup_insert_eq. unfold with_wrappers. cbn.
  by rewrite insert_insert_eq.
Qed.

Lemma newResponseWrapper_read_fails (rp : Response) (st : BodyStream)
    (e : error) (cl : loc) (y : client) :
  call_errChecker g s = Ret None s →
  bodies s !! Body rp = Some st →
  read_err st = Some e →
  setter_cell s f = Some cl →
  clients s !! cl = Some y →
  newResponseWrapper env (Some rp) g f s
  = Ret (PtrResponseWrapper (fresh (dom (wrappers s))))
        {| clients :=
             <[cl := set_err (Some (recorded env f
                                      (Wrap e "reading response body"))) y]>
               (clients s);
           httpClients := httpClients s;
           wrappers := <[fresh (dom (wrappers s)) := {| error_ := g; setError := f;
                                 resp := Some rp; body := "" |}]>
                         (wrappers s);
           bodies := <[Body rp := {| unread := ""; read_err := Some e;
                                    closed := closed st |}]> (bodies s);
           vars := vars s; jars := jars s;
           trace := EvReadAll (Body rp) :: trace s |}.
Proof.
  intros H Hb Hr Hf Hy. unfold newResponseWrapper, bind at 1, alloc_wrapper.
  unfold bind at 1. rewrite (call_errChecker_frame s); [|done].
  rewrite H. unfold bind at 1, ret at 1.
  unfold ioutil_ReadAll, bind at 1 2 3 4, log, modify_store, get_body, deref.
  cbn. rewrite Hb, Hr. cbn.
  unfold bind. erewrite call_setError_cell; [done| |]; cbn; done.
Qed.

End Construction.

(** C6. Building an inspector at the fresh address [r]: when the accessor
    reports an error, nothing is read (the trace and the streams are as
    before) and the body is empty; otherwise the stream is read once, to
    its end, and [Body] returns what it held; when that read fails, the
    setter records the failure as "reading response body" and the body
    stays empty. *)
Theorem newResponseWrapper_reads_once (env : Env) (s : Store)
    (g : errCheckerFn) (f : setErrorFn) (resp : option Response) :
  let r := fresh (dom (wrappers s)) in
  (∀ E, call_errChecker g s = Ret (Some E) s →
     ∃ s', newResponseWrapper env resp g f s = Ret (PtrResponseWrapper r) s' ∧
           trace s' = trace s ∧ bodies s' = bodies s ∧
           clients s' = clients s ∧
           rw_Body r s' = Ret "" s') ∧
  (∀ rp st, resp = Some rp →
     call_errChecker g s = Ret None s →
     bodies s !! Body rp = Some st → read_err st = None →
     ∃ s', newResponseWrapper env resp g f s = Ret (PtrResponseWrapper r) s' ∧
           trace s' = EvReadAll (Body rp) :: trace s ∧
           clients s' = clients s ∧
           rw_Body r s' = Ret (unread st) s') ∧
  (∀ rp st e cl y, resp = Some rp →
     call_errChecker g s = Ret None s →
     bodies s !! Body rp = Some st → read_err st = Some e →
     setter_cell s f = Some cl → clients s !! cl = Some y →
     ∃ s', newResponseWrapper env resp g f s = Ret (PtrResponseWrapper r) s' ∧
           trace s' = EvReadAll (Body rp) :: trace s ∧
           clients s'
           = <[cl := set_err (Some (recorded env f
                                      (Wrap e "reading response body"))) y]>
               (clients s) ∧
           mentions "reading response body"
             (recorded env f (Wrap e "reading response body")) = true ∧
           rw_Body r s' = Ret "" s').
Proof.
  intros r. split_and!.
  - intros E H. eexists. split.
    { by apply newResponseWrapper_existing_error with (E := E). }
    split_and!; try done.
    unfold rw_Body, bind, get_wrapper, deref. cbn.
    by rewrite lookup_insert_eq.
  - intros rp st -> H Hb Hr. eexists. split.
    { by apply newResponseWrapper_read_ok with (st := st). }
    split_and!; try done.
    unfold rw_Body, bind, get_wrapper, deref. cbn.
    by rewrite lookup_insert_eq.
  - intros rp st e cl y -> H Hb Hr Hf Hy. eexists. split.
    { by apply newResponseWrapper_read_fails with (st := st) (e := e) (y := y). }
    split_and!; try done.
    + by destruct f.
    + unfold rw_Body, bind, get_wrapper, deref. cbn.
      by rewrite lookup_insert_eq.
Qed.

(** C7, as the code has it.  Construction never closes a stream.  With an
    error pending the streams are not touched; otherwise the response's
    stream is consumed, to its end or to its read error, and stays open. *)
Theorem newResponseWrapper_leaves_stream_open (env : Env) (s : Store)
    (g : errCheckerFn) (f : setErrorFn) (resp : option Response) :
  let r := fresh (dom (wrappers s)) in
  (∀ E, call_errChecker g s = Ret (Some E) s →
     ∃ s', newResponseWrapper env resp g f s = Ret (PtrResponseWrapper r) s' ∧
           bodies s' = bodies s) ∧
  (∀ rp st, resp = Some rp →
     call_errChecker g s = Ret None s →
     bodies s !! Body rp = Some st → read_err st = None →
     ∃ s', newResponseWrapper env resp g f s = Ret (PtrResponseWrapper r) s' ∧
           bodies s' = <[Body rp := {| unread := ""; read_err := None;
                                      closed := closed st |}]> (bodies s)) ∧
  (∀ rp st e cl y, resp = Some rp →
     call_errChecker g s = Ret None s →
     bodies s !! Body rp = Some st → read_err st = Some e →
     setter_cell s f = Some cl → clients s !! cl = Some y →
     ∃ s', newResponseWrapper env resp g f s = Ret (PtrResponseWrapper r) s' ∧
           bodies s' = <[Body rp := {| unread := ""; read_err := Some e;
                                      closed := closed st |}]> (bodies s)).
Proof.
  intros r. split_and!.
  - intros E H. eexists. split; [|shelve].
    by apply newResponseWrapper_existing_error with (E := E).
    Unshelve. done.
  - intros rp st -> H Hb Hr. eexists. split; [|shelve].
    by apply newResponseWrapper_read_ok with (st := st).
    Unshelve. done.
  - intros rp st e cl y -> H Hb Hr Hf Hy. eexists. split; [|shelve].
    by apply newResponseWrapper_read_fails with (st := st) (e := e) (y := y).
    Unshelve. done.
Qed.

Lemma newResponseWrapper_reads_once_witness :
  (∃ s', newResponseWrapper test_env (Some (sample_response None))
           (MethodError 0) (FieldErrSetter (ErrSetterOf 0))
           (healthy_store good_stream)
         = Ret (PtrResponseWrapper
                  (fresh (dom (wrappers (healthy_store good_stream))))) s' ∧
         trace s' = EvReadAll 0 :: trace (healthy_store good_stream) ∧
         clients s' = clients (healthy_store good_stream) ∧
         rw_Body (fresh (dom (wrappers (healthy_store good_stream)))) s'
         = Ret "some body" s') ∧
  (∃ s', newResponseWrapper test_env (Some (sample_response None))
           (MethodError 0) (FieldErrSetter (ErrSetterOf 0)) failed_store
         = Ret (PtrResponseWrapper (fresh (dom (wrappers failed_store)))) s' ∧
         trace s' = trace failed_store ∧ bodies s' = bodies failed_store ∧
         clients s' = clients failed_store ∧
         rw_Body (fresh (dom (wrappers failed_store))) s' = Ret "" s').
Proof.
  split.
  - apply (proj1 (proj2 (newResponseWrapper_reads_once test_env
             (healthy_store good_stream) (MethodError 0)
             (FieldErrSetter (ErrSetterOf 0)) (Some (sample_response None))))
             (sample_response None) good_stream); vm_compute; reflexivity.
  - apply (proj1 (newResponseWrapper_reads_once test_env failed_store
             (MethodError 0) (FieldErrSetter (ErrSetterOf 0))
             (Some (sample_response None)))
             (Wrap (External "missing protocol scheme") "creating request"));
      vm_compute; reflexivity.
Defined.

Lemma newResponseWrapper_leaves_stream_open_witness :
  ∃ s', newResponseWrapper test_env (Some (sample_response None))
          (MethodError 0) (FieldErrSetter (ErrSetterOf 0))
          (healthy_store bad_stream)
        = Ret (PtrResponseWrapper
                 (fresh (dom (wrappers (healthy_store bad_stream))))) s' ∧
        bodies s'
        = <[Body (sample_response None)
              := {| unread := ""; read_err := Some (External "read error");
                    closed := closed bad_stream |}]>
            (bodies (healthy_store bad_stream)).
Proof.
  apply (proj2 (proj2 (newResponseWrapper_leaves_stream_open test_env
           (healthy_store bad_stream) (MethodError 0)
           (FieldErrSetter (ErrSetterOf 0)) (Some (sample_response None))))
           (sample_response None) bad_stream (External "read error") 0
           {| baseURL := "http://x"; httpClient := 0; err := None;
              errGetter := ErrGetterOf 0; errSetter := ErrSetterOf 0;
              useBasicAuth := false; basicAuthUser := "";
              basicAuthPass := ""; useCookies := false; headers := None;
              timeout := 0 |}); vm_compute; reflexivity.
Defined.

(** C7 as stated fails: after a successful request the body stream has been
    read to its end and is still open, and an inspector built while an error
    is pending leaves its stream unread and open. *)
Lemma body_stream_never_closed :
  bodies (store_of (get_from "http://x" "/p" empty_store)) !! 0
  = Some {| unread := ""; read_err := None; closed := false |} ∧
  bodies (store_of (inspect_after_error empty_store)) !! 0
  = Some {| unread := "some body"; read_err := None; closed := false |}.
Proof. vm_compute. done. Qed.

(** ** Assertions on an inspector with no pending error *)

Section Assertions.
Context (env : Env) (s : Store) (r : loc) (w : responseWrapper)
        (cl : loc) (y : client).
Hypothesis Hw : wrappers s !! r = Some w.
Hypothesis Hg : getter_cell s (error_ w) = Some cl.
Hypothesis Hf : setter_cell s (setError w) = Some cl.
Hypothesis Hy : clients s !! cl = Some y.
Hypothesis He : err y = None.

Lemma rw_error_none : rw_error r s = Ret None s.
Proof.
  unfold rw_error, bind, get_wrapper, deref. rewrite Hw.
  by rewrite (call_errChecker_cell _ _ _ _ Hg Hy), He.
Qed.

Lemma rw_setError_records (e : error) :
  rw_setError env r e s
  = Ret tt (record_failure env s cl y (setError w) e).
Proof.
  unfold rw_setError, bind, get_wrapper, deref. rewrite Hw.
  by apply call_setError_cell.
Qed.

Lemma rw_error_recorded (e : error) :
  rw_error r (record_failure env s cl y (setError w) e)
  = Ret (Some (recorded env (setError w) e))
        (record_failure env s cl y (setError w) e).
Proof.
  unfold rw_error, bind, get_wrapper, deref, record_failure. cbn.
  rewrite Hw. by apply checker_after_setter.
Qed.

Lemma rw_resp_some (rp : Response) : resp w = Some rp → rw_resp r s = Ret rp s.
Proof.
  intros H. unfold rw_resp, bind, get_wrapper, deref. by rewrite Hw, H.
Qed.

(** What a failing and a passing check come to. *)
Lemma check_fails (e : error) :
  (rw_setError env r e;;; ret (PtrResponseWrapper r)) s
  = Ret (PtrResponseWrapper r) (record_failure env s cl y (setError w) e).
Proof. by rewrite (bind_Ret _ _ _ _ _ (rw_setError_records e)). Qed.

Lemma check_when (b : bool) (e : error) :
  (when b (rw_setError env r e);;; ret (PtrResponseWrapper r)) s
  = Ret (PtrResponseWrapper r)
        (if b then record_failure env s cl y (setError w) e else s).
Proof. destruct b; [apply check_fails | done]. Qed.

Lemma ExpectHeaderPresent_run (rp : Response) (key : string) :
  resp w = Some rp →
  ExpectHeaderPresent env r key s
  = Ret (PtrResponseWrapper r)
        (match RespHeader rp with
         | None =>
             record_failure env s cl y (setError w)
               (Errorf "expected a header %q, but there are no headers"
                       [ArgString key])
         | Some m =>
             if (length (default [] (m !! key)) =? 0)%nat
             then record_failure env s cl y (setError w)
                    (Errorf "expected a header %q to be present, but it was not"
                            [ArgString key])
             else s
         end).
Proof.
  intros Hr. unfold ExpectHeaderPresent.
  rewrite (bind_Ret _ _ _ _ _ rw_error_none).
  rewrite (bind_Ret _ _ _ _ _ (rw_resp_some _ Hr)).
  destruct (RespHeader rp) as [m|]; [apply check_when | apply check_fails].
Qed.

End Assertions.

(** ** C5 and C10: header checks *)

(** C5. On a response whose header map is nil, [ExpectHeaderPresent],
    [ExpectHeaderContains] and [ExpectHeaderEquals] record an error that
    says there are no headers, and the accessor reports it afterwards;
    [ExpectHeaderNotPresent], [ExpectHeaderNotContains] and
    [ExpectHeaderNotEquals] return in the unchanged store, where the
    accessor still reports no error. *)
Theorem nil_header_asymmetry (env : Env) (s : Store) (r : loc)
    (w : responseWrapper) (cl : loc) (y : client) (rp : Response)
    (key value : string) :
  wrappers s !! r = Some w →
  getter_cell s (error_ w) = Some cl →
  setter_cell s (setError w) = Some cl →
  clients s !! cl = Some y →
  err y = None →
  resp w = Some rp →
  RespHeader rp = None →
  (∀ a, a = CallExpectHeaderPresent key ∨
        a = CallExpectHeaderContains key value ∨
        a = CallExpectHeaderEquals key value →
     ∃ e, let s' := record_failure env s cl y (setError w) e in
          rw_call env r a s = Ret (PtrResponseWrapper r) s' ∧
          rw_error r s' = Ret (Some (recorded env (setError w) e)) s' ∧
          mentions "no headers" (recorded env (setError w) e) = true) ∧
  (∀ a, a = CallExpectHeaderNotPresent key ∨
        a = CallExpectHeaderNotContains key value ∨
        a = CallExpectHeaderNotEquals key value →
     rw_call env r a s = Ret (PtrResponseWrapper r) s ∧
     rw_error r s = Ret None s).
Proof.
  intros Hw Hg Hf Hy He Hr Hh.
  assert (Hnone : rw_error r s = Ret None s)
    by (eapply rw_error_none; eauto).
  assert (Hresp : rw_resp r s = Ret rp s)
    by (eapply rw_resp_some; eauto).
  assert (Hrec : ∀ e,
            rw_error r (record_failure env s cl y (setError w) e)
            = Ret (Some (recorded env (setError w) e))
                  (record_failure env s cl y (setError w) e))
    by (intros; eapply rw_error_recorded; eauto).
  assert (Hfail : ∀ e,
            (rw_setError env r e;;; ret (PtrResponseWrapper r)) s
            = Ret (PtrResponseWrapper r)
                  (record_failure env s cl y (setError w) e))
    by (intros; eapply check_fails; eauto).
  split.
  - intros a [->| [->| ->]]; cbn [rw_call]; eexists; cbn zeta.
    + unfold ExpectHeaderPresent.
      rewrite (bind_Ret _ _ _ _ _ Hnone), (bind_Ret _ _ _ _ _ Hresp), Hh.
      rewrite Hfail. split_and!; [done | apply Hrec |].
      destruct (setError w); vm_compute; done.
    + unfold ExpectHeaderContains.
      rewrite (bind_Ret _ _ _ _ _ Hnone), (bind_Ret _ _ _ _ _ Hresp), Hh.
      rewrite Hfail. split_and!; [done | apply Hrec |].
      destruct (setError w); vm_compute; done.
    + unfold ExpectHeaderEquals.
      rewrite (bind_Ret _ _ _ _ _ Hnone), (bind_Ret _ _ _ _ _ Hresp), Hh.
      rewrite Hfail. split_and!; [done | apply Hrec |].
      destruct (setError w); vm_compute; done.
  - intros a [->| [->| ->]]; cbn [rw_call]; (split; [|done]).
    + unfold ExpectHeaderNotPresent.
      by rewrite (bind_Ret _ _ _ _ _ Hnone), (bind_Ret _ _ _ _ _ Hresp), Hh.
    + unfold ExpectHeaderNotContains.
      by rewrite (bind_Ret _ _ _ _ _ Hnone), (bind_Ret _ _ _ _ _ Hresp), Hh.
    + unfold ExpectHeaderNotEquals.
      by rewrite (bind_Ret _ _ _ _ _ Hnone), (bind_Ret _ _ _ _ _ Hresp), Hh.
Qed.

Lemma nil_header_asymmetry_witness :
  (∃ e, let s' := record_failure test_env (inspected_store None) 0
                    healthy_client (setError (inspector_on None)) e in
        rw_call test_env 0 (CallExpectHeaderPresent "X") (inspected_store None)
        = Ret (PtrResponseWrapper 0) s' ∧
        rw_error 0 s'
        = Ret (Some (recorded test_env (setError (inspector_on None)) e)) s' ∧
        mentions "no headers"
          (recorded test_env (setError (inspector_on None)) e) = true) ∧
  (rw_call test_env 0 (CallExpectHeaderNotPresent "X") (inspected_store None)
   = Ret (PtrResponseWrapper 0) (inspected_store None) ∧
   rw_error 0 (inspected_store None) = Ret None (inspected_store None)).
Proof.
  assert (H := nil_header_asymmetry test_env (inspected_store None) 0
                 (inspector_on None) 0 healthy_client
                 (sample_response None) "X" "v"
                 eq_refl eq_refl eq_refl eq_refl eq_refl eq_refl eq_refl).
  split.
  - apply (proj1 H). left. reflexivity.
  - apply (proj2 H). left. reflexivity.
Defined.

(** C10. [ExpectHeaderPresent] indexes the response's header map with the
    key as given, in no canonical form: on an inspector with no pending
    error it returns with no error recorded exactly when that very string
    is bound to a non-empty list of values. *)
Theorem ExpectHeaderPresent_exact_key (env : Env) (s : Store) (r : loc)
    (w : responseWrapper) (cl : loc) (y : client) (rp : Response)
    (key : string) :
  wrappers s !! r = Some w →
  getter_cell s (error_ w) = Some cl →
  setter_cell s (setError w) = Some cl →
  clients s !! cl = Some y →
  err y = None →
  resp w = Some rp →
  ∃ s', ExpectHeaderPresent env r key s = Ret (PtrResponseWrapper r) s' ∧
        (rw_error r s' = Ret None s' ↔
         ∃ m vs, RespHeader rp = Some m ∧ m !! key = Some vs ∧ vs ≠ []).
Proof.
  intros Hw Hg Hf Hy He Hr.
  assert (Hnone : rw_error r s = Ret None s)
    by (eapply rw_error_none; eauto).
  assert (Hrec : ∀ e,
            rw_error r (record_failure env s cl y (setError w) e)
            = Ret (Some (recorded env (setError w) e))
                  (record_failure env s cl y (setError w) e))
    by (intros; eapply rw_error_recorded; eauto).
  eexists. split; [by eapply ExpectHeaderPresent_run|].
  destruct (RespHeader rp) as [m|].
  - destruct (m !! key) as [vs|] eqn:Hk; cbn.
    + destruct vs as [|v vs]; cbn.
      * rewrite Hrec. split; [done|].
        intros (m' & vs' & [= <-] & Hk' & Hne). congruence.
      * split; [|done].
        intros _. exists m, (v :: vs). done.
    + rewrite Hrec. split; [done|].
      intros (m' & vs' & [= <-] & Hk' & _). congruence.
  - rewrite Hrec. split; [done|].
    intros (m' & vs' & [=] & _).
Qed.

Lemma ExpectHeaderPresent_exact_key_witness :
  ∃ s', ExpectHeaderPresent test_env 0 "auth"
          (inspected_store (Some auth_header))
        = Ret (PtrResponseWrapper 0) s' ∧
        (rw_error 0 s' = Ret None s' ↔
         ∃ m vs, RespHeader (sample_response (Some auth_header)) = Some m ∧
                 m !! "auth" = Some vs ∧ vs ≠ []).
Proof.
  exact (ExpectHeaderPresent_exact_key test_env
           (inspected_store (Some auth_header)) 0
           (inspector_on (Some auth_header)) 0 healthy_client
           (sample_response (Some auth_header)) "auth"
           eq_refl eq_refl eq_refl eq_refl eq_refl eq_refl).
Defined.

(** The header [Auth] is found under that spelling only. *)
Example header_key_case :
  let s := inspected_store (Some auth_header) in
  value_of (Error 0 (store_of (ExpectHeaderPresent test_env 0 "Auth" s)))
  = Some None ∧
  value_of (Error 0 (store_of (ExpectHeaderPresent test_env 0 "auth" s)))
  = Some (Some (Errorf "expected a header %q to be present, but it was not"
                       [ArgString "auth"])).
Proof. vm_compute. done. Qed.

(** ** Copying the headers *)

Section Headers.
Context (env : Env).

Lemma Header_Add_index (h : Header) (key value k : string) :
  CanonicalMIMEHeaderKey env key = key →
  default [] (Header_Add env h key value !! k)
  = if decide (k = key) then (default [] (h !! key) ++ [value])%list
    else default [] (h !! k).
Proof.
  intros Hk. unfold Header_Add. cbn zeta. rewrite Hk.
  destruct (decide (k = key)) as [->|Hne].
  - by rewrite lookup_insert_eq.
  - by rewrite lookup_insert_ne.
Qed.

Lemma add_values_index (key : string) (vals : list string) (acc : Header)
    (k : string) :
  CanonicalMIMEHeaderKey env key = key →
  default [] (foldl (λ acc' val, Header_Add env acc' key val) acc vals !! k)
  = if decide (k = key) then (default [] (acc !! key) ++ vals)%list
    else default [] (acc !! k).
Proof.
  intros Hk. revert acc. induction vals as [|v vals IH]; intros acc; cbn.
  - case_decide; [subst; by rewrite app_nil_r | done].
  - rewrite IH. case_decide as Hd.
    + rewrite (Header_Add_index _ _ _ _ Hk), decide_True by done.
      by rewrite <- app_assoc.
    + by rewrite (Header_Add_index _ _ _ _ Hk), decide_False.
Qed.

(** Copying a map with canonical keys into the empty map yields the same
    values under every key, whatever the order of the iteration. *)
Lemma add_each_index (m : Header) (k : string) :
  map_Forall (λ k _, CanonicalMIMEHeaderKey env k = k) m →
  default [] (add_each env (Some m) ∅ !! k) = default [] (m !! k).
Proof.
  cbn [add_each]. revert k.
  apply (map_fold_weak_ind
           (λ (r : Header) (m' : Header),
              ∀ k, map_Forall (λ k _, CanonicalMIMEHeaderKey env k = k) m' →
                   default [] (r !! k) = default [] (m' !! k))).
  - done.
  - intros i x m' r Hi IH k Hall.
    apply map_Forall_insert in Hall as [Hcanon Hall]; [|done].
    rewrite (add_values_index _ _ _ _ Hcanon).
    destruct (decide (k = i)) as [->|Hne].
    + rewrite lookup_insert_eq, (IH i Hall), Hi. done.
    + rewrite lookup_insert_ne by done. by apply IH.
Qed.

Lemma add_each_header_index (h : option Header) (k : string) :
  from_option (map_Forall (λ k _, CanonicalMIMEHeaderKey env k = k)) True h →
  header_index (Some (add_each env h ∅)) k = header_index h k.
Proof.
  destruct h as [m|]; cbn [header_index from_option].
  - apply add_each_index.
  - intros _. cbn. by rewrite lookup_empty.
Qed.

(** [WithHeader] keeps the keys canonical when canonicalisation is
    idempotent. *)
Lemma Header_Add_canonical (h : Header) (key value : string) :
  (∀ k, CanonicalMIMEHeaderKey env (CanonicalMIMEHeaderKey env k)
        = CanonicalMIMEHeaderKey env k) →
  map_Forall (λ k _, CanonicalMIMEHeaderKey env k = k) h →
  map_Forall (λ k _, CanonicalMIMEHeaderKey env k = k)
             (Header_Add env h key value).
Proof.
  intros Hidem Hall. unfold Header_Add. cbn zeta.
  by apply map_Forall_insert_2.
Qed.

End Headers.

(** ** Builders and their error cell *)

Lemma channel_of_Some (x : client) (cl : loc) :
  channel_of x = Some cl →
  errGetter x = ErrGetterOf cl ∧ errSetter x = ErrSetterOf cl.
Proof.
  unfold channel_of. destruct (errGetter x) as [a], (errSetter x) as [b].
  case_decide; [|done]. by intros [= <-]; subst.
Qed.

Lemma getter_cell_client (s : Store) (c : loc) (x : client) (cl : loc) :
  clients s !! c = Some x → errGetter x = ErrGetterOf cl →
  getter_cell s (MethodError c) = Some cl.
Proof. intros Hc Hg. unfold getter_cell. rewrite Hc. cbn. by rewrite Hg. Qed.

Lemma errGetter_of_run (s : Store) (c : loc) (x : client) (cl : loc)
    (y : client) :
  clients s !! c = Some x → errGetter x = ErrGetterOf cl →
  clients s !! cl = Some y →
  errGetter_of c s = Ret (err y) s.
Proof.
  intros Hc Hg Hy.
  apply (call_errChecker_cell s (MethodError c) cl y); [|done].
  by apply getter_cell_client with (x := x).
Qed.

Lemma errSetter_of_run (s : Store) (c : loc) (x : client) (cl : loc)
    (y : client) (e : error) :
  clients s !! c = Some x → errSetter x = ErrSetterOf cl →
  clients s !! cl = Some y →
  errSetter_of c e s = Ret tt (builder_failure s cl y e).
Proof.
  intros Hc Hf Hy. unfold errSetter_of, bind, get_client, deref.
  rewrite Hc, Hf. by apply call_errSetter_run.
Qed.

Lemma Error_after_failure (s : Store) (c : loc) (x : client) (cl : loc)
    (y : client) (e : error) :
  clients s !! c = Some x → errGetter x = ErrGetterOf cl →
  clients s !! cl = Some y →
  Error c (builder_failure s cl y e) = Ret (Some e) (builder_failure s cl y e).
Proof.
  intros Hc Hg Hy.
  apply (checker_after_setter s (MethodError c)); [|done].
  by apply getter_cell_client with (x := x).
Qed.

(** Rewriting fields other than [err] and [errGetter] of one builder leaves
    the error every builder sees as it was. *)
Lemma peek_err_update (s : Store) (p q : loc) (xp : client)
    (f : client → client) :
  clients s !! p = Some xp →
  err (f xp) = err xp → errGetter (f xp) = errGetter xp →
  peek_err (with_clients (insert p (f xp)) s) q = peek_err s q.
Proof.
  intros Hp Herr Hget. unfold peek_err. cbn.
  assert (Hcell : ∀ cl, (clients s !! cl ≫= λ y, Some (err y))
                        = (<[p := f xp]> (clients s) !! cl
                             ≫= λ y, Some (err y))).
  { intros cl. destruct (decide (p = cl)) as [->|Hne].
    - rewrite lookup_insert_eq, Hp. cbn. by rewrite Herr.
    - by rewrite lookup_insert_ne. }
  destruct (decide (p = q)) as [->|Hne].
  - rewrite lookup_insert_eq, Hp. cbn. rewrite Hget.
    destruct (errGetter xp) as [cl]. by rewrite <- Hcell.
  - rewrite lookup_insert_ne by done.
    destruct (clients s !! q) as [xq|]; [|done]. cbn.
    destruct (errGetter xq) as [cl]. by rewrite <- Hcell.
Qed.

Lemma peek_err_alloc (s : Store) (q : loc) (x' : client) :
  is_Some (peek_err s q) →
  peek_err (with_clients (insert (fresh (dom (clients s))) x') s) q
  = peek_err s q.
Proof.
  intros [e He]. unfold peek_err in *. cbn.
  assert (Hfresh : ∀ p v, clients s !! p = Some v →
                          fresh (dom (clients s)) ≠ p).
  { intros p v Hp Heq. apply (is_fresh (dom (clients s))).
    rewrite Heq. apply elem_of_dom. eauto. }
  destruct (clients s !! q) as [xq|] eqn:Hq; [|done].
  rewrite lookup_insert_ne by eauto. rewrite Hq. cbn in *.
  destruct (errGetter xq) as [cl].
  destruct (clients s !! cl) as [yc|] eqn:Hcl; [|done].
  rewrite lookup_insert_ne by eauto. by rewrite Hcl.
Qed.

(** A call that sets the builder's own fields touches no other builder. *)
Lemma configure_frame (env : Env) (a : Config) (p q r : loc) (s s' : Store) :
  own_fields a = true → p ≠ q → is_Some (peek_err s q) →
  configure env p a s = Ret r s' →
  clients s' !! q = clients s !! q ∧ peek_err s' q = peek_err s q.
Proof.
  intros Ha Hpq Hq Hrun.
  assert (Hq' : is_Some (clients s !! q)).
  { destruct Hq as [e He]. unfold peek_err in He.
    destruct (clients s !! q); [eauto | done]. }
  assert (Hupd : ∀ f : client → client,
            (∀ xp, err (f xp) = err xp ∧ errGetter (f xp) = errGetter xp) →
            (do* e ← errGetter_of p;
             if e is Some _ then ret p else update_client p f;;; ret p) s
            = Ret r s' →
            clients s' !! q = clients s !! q ∧ peek_err s' q = peek_err s q).
  { intros f Hf H.
    apply bind_Ret_inv in H as (e & s1 & He & H).
    apply Error_inv in He as [-> _].
    destruct e as [e|]; [by injection H as _ <-|].
    apply bind_Ret_inv in H as ([] & s1 & H & Hret). injection Hret as _ <-.
    unfold update_client in H.
    apply bind_Ret_inv in H as (xp & s2 & Hget & H).
    unfold get_client, deref in Hget.
    destruct (clients s !! p) as [xp'|] eqn:Hp; [|done].
    injection Hget as <- <-. injection H as <-.
    split.
    - cbn. by rewrite lookup_insert_ne.
    - apply peek_err_update; [done | apply Hf | apply Hf]. }
  destruct a; cbn [configure] in Hrun; try done.
  - by apply (Hupd (set_basicAuth false "" "")).
  - by apply (Hupd (set_basicAuth true user pass)).
  - unfold WithHeader in Hrun.
    apply bind_Ret_inv in Hrun as (e & s1 & He & H).
    apply Error_inv in He as [-> _].
    destruct e as [e|]; [by injection H as _ <-|].
    apply bind_Ret_inv in H as (xp & s1 & Hget & H).
    unfold get_client, deref in Hget.
    destruct (clients s !! p) as [xp'|] eqn:Hp; [|done].
    injection Hget as <- <-.
    apply bind_Ret_inv in H as ([] & s1 & H & Hret). injection Hret as _ <-.
    unfold update_client, bind, get_client, deref in H. rewrite Hp in H.
    injection H as <-.
    split.
    + cbn. by rewrite lookup_insert_ne.
    + by apply peek_err_update.
  - by apply (Hupd (set_timeout t)).
  - unfold Clone in Hrun.
    apply bind_Ret_inv in Hrun as (e & s1 & He & H).
    apply Error_inv in He as [-> _].
    destruct e as [e|]; [by injection H as _ <-|].
    apply bind_Ret_inv in H as (xp & s1 & Hget & H).
    unfold get_client, deref in Hget.
    destruct (clients s !! p) as [xp'|] eqn:Hp; [|done].
    injection Hget as <- <-. injection H as _ <-.
    split.
    + cbn. rewrite lookup_insert_ne; [done|].
      intros Heq. apply (is_fresh (dom (clients s))). rewrite Heq.
      by apply elem_of_dom.
    + by apply peek_err_alloc.
Qed.

(** ** C2: what a clone owns and what it shares *)

(** C2, as the code has it.  [Clone] of a builder with no error allocates a
    new builder and leaves the original as it was.  The clone has the
    source's base URL, credentials, cookie flag and timeout, and a header
    map of its own with the same values under every key; calls that set
    such fields on one of the two builders leave the other one alone.  The
    clone also keeps the source's two error closures and its HTTP client:
    an error recorded through either builder is the sticky error of both. *)
Theorem Clone_copies_fields_shares_error (env : Env) (s : Store) (c : loc)
    (x : client) (cl : loc) (y : client) :
  clients s !! c = Some x →
  channel_of x = Some cl →
  clients s !! cl = Some y →
  err y = None →
  headers_canonical env x →
  let c' := fresh (dom (clients s)) in
  let x' := set_headers (Some (add_each env (headers x) ∅)) x in
  let s1 := with_clients (insert c' x') s in
  Clone env c s = Ret c' s1 ∧
  c' ≠ c ∧ clients s1 !! c = Some x ∧ clients s1 !! c' = Some x' ∧
  (∀ k, header_index (headers x') k = header_index (headers x) k) ∧
  (baseURL x', useBasicAuth x', basicAuthUser x', basicAuthPass x',
   useCookies x', timeout x')
  = (baseURL x, useBasicAuth x, basicAuthUser x, basicAuthPass x,
     useCookies x, timeout x) ∧
  (∀ a p q r s2 s3, own_fields a = true →
     (p = c ∧ q = c') ∨ (p = c' ∧ q = c) →
     is_Some (peek_err s2 q) →
     configure env p a s2 = Ret r s3 →
     clients s3 !! q = clients s2 !! q ∧ peek_err s3 q = peek_err s2 q) ∧
  httpClient x' = httpClient x ∧
  (∀ e p, p = c ∨ p = c' →
     errSetter_of p e s1 = Ret tt (builder_failure s1 cl y e) ∧
     Error c (builder_failure s1 cl y e)
     = Ret (Some e) (builder_failure s1 cl y e) ∧
     Error c' (builder_failure s1 cl y e)
     = Ret (Some e) (builder_failure s1 cl y e)).
Proof.
  intros Hc Hch Hy He Hcanon c' x' s1.
  apply channel_of_Some in Hch as [Hget Hset].
  assert (Hfresh : ∀ p v, clients s !! p = Some v → c' ≠ p).
  { intros p v Hp Heq. apply (is_fresh (dom (clients s))).
    fold c'. rewrite Heq. apply elem_of_dom. eauto. }
  assert (Hc1 : clients s1 !! c = Some x).
  { cbn. rewrite lookup_insert_ne; eauto. }
  assert (Hc1' : clients s1 !! c' = Some x').
  { cbn. by rewrite lookup_insert_eq. }
  assert (Hy1 : clients s1 !! cl = Some y).
  { cbn. rewrite lookup_insert_ne; eauto. }
  split_and!; try done.
  - unfold Clone.
    rewrite (bind_Ret _ _ _ _ _ (errGetter_of_run _ _ _ _ _ Hc Hget Hy)), He.
    unfold bind, get_client, deref. by rewrite Hc.
  - eauto.
  - intros k. by apply add_each_header_index.
  - intros a p q r s2 s3 Ha Hpq Hq Hrun.
    apply (configure_frame env a p q r s2 s3); try done.
    destruct Hpq as [[-> ->]|[-> ->]]; [|by eauto].
    intros Heq. by apply (Hfresh c x).
  - intros e p Hp. split_and!.
    + destruct Hp as [->| ->].
      * by apply errSetter_of_run with (x := x).
      * by apply errSetter_of_run with (x := x').
    + by apply Error_after_failure with (x := x).
    + by apply Error_after_failure with (x := x').
Qed.

Lemma Clone_copies_fields_shares_error_witness :
  Clone test_env 0 api_store
  = Ret (fresh (dom (clients api_store)))
        (with_clients
           (insert (fresh (dom (clients api_store)))
              (set_headers (Some (add_each test_env (headers api_client) ∅))
                 api_client)) api_store) ∧
  header_index
    (headers (set_headers (Some (add_each test_env (headers api_client) ∅))
                api_client)) "X-Api-Key"
  = header_index (headers api_client) "X-Api-Key".
Proof.
  assert (Hcanon : headers_canonical test_env api_client).
  { apply map_Forall_singleton. reflexivity. }
  destruct (Clone_copies_fields_shares_error test_env api_store 0 api_client 0
              api_client) as (H1 & _ & _ & _ & H2 & _);
    [vm_compute; reflexivity | reflexivity | vm_compute; reflexivity
    | reflexivity | exact Hcanon |].
  exact (conj H1 (H2 "X-Api-Key")).
Defined.

(** C2 as stated fails: the clone writes to the original's error cell and
    to the original's HTTP client.  A request of the clone that the
    transport refuses leaves its error on the original, and cookies turned
    on for the clone are turned on for the original. *)
Lemma clone_shares_error_and_cookies :
  value_of (clone_then_fail empty_store)
  = Some (0, 1, None,
          Some (Wrap (External "connection refused") "doing request")) ∧
  value_of (clone_then_cookies empty_store)
  = Some (Some {| Jar := None |}, Some {| Jar := Some 0 |}).
Proof. vm_compute. done. Qed.

(** ** Failing actions *)

Section Failures.
Context (env : Env).

(** An inspector built while builder [c] reports [e]. *)
Lemma inspector_around_nothing (s : Store) (c : loc) (f : setErrorFn)
    (e : error) :
  Error c s = Ret (Some e) s →
  ∃ w s', newResponseWrapper env None (MethodError c) f s = Ret w s' ∧
          absent_response_inspector s' c w e.
Proof.
  intros H. do 2 eexists. split.
  { by apply newResponseWrapper_existing_error with (E := e). }
  assert (Hframe : ∀ g, Error c (with_wrappers g s)
                        = Ret (Some e) (with_wrappers g s)).
  { intros g. apply Error_inv in H as [_ H].
    rewrite Error_peek. unfold peek_err in *. cbn. by rewrite H. }
  split; [apply Hframe|].
  exists (fresh (dom (wrappers s))),
         {| error_ := MethodError c; setError := f; resp := None; body := "" |}.
  split_and!; try done.
  - cbn. by rewrite lookup_insert_eq.
  - unfold rw_error, bind, get_wrapper, deref. cbn.
    rewrite lookup_insert_eq. apply Hframe.
Qed.

Section Healthy.
Context (s : Store) (c : loc) (x : client) (cl : loc) (y : client).
Hypothesis Hc : clients s !! c = Some x.
Hypothesis Hch : channel_of x = Some cl.
Hypothesis Hy : clients s !! cl = Some y.
Hypothesis He : err y = None.

Lemma healthy_errGetter : errGetter_of c s = Ret None s.
Proof.
  apply channel_of_Some in Hch as [Hget _].
  by rewrite (errGetter_of_run _ _ _ _ _ Hc Hget Hy), He.
Qed.

Lemma healthy_fails (e : error) :
  errSetter_of c e s = Ret tt (builder_failure s cl y e) ∧
  Error c (builder_failure s cl y e) = Ret (Some e) (builder_failure s cl y e).
Proof.
  apply channel_of_Some in Hch as [Hget Hset]. split.
  - by apply errSetter_of_run with (x := x).
  - by apply Error_after_failure with (x := x).
Qed.

Lemma buildPath_run (path : string) : buildPath c path s = Ret (target x path) s.
Proof. unfold buildPath, bind, get_client, deref. by rewrite Hc. Qed.

Lemma buildReq_run (method path : string) (body : option string) :
  buildReq env c method path body s
  = match http_NewRequest_err env method (target x path) with
    | Some e => Ret None (builder_failure s cl y (Wrap e "creating request"))
    | None => Ret (Some (populated env x method path body)) s
    end.
Proof.
  unfold buildReq. rewrite (bind_Ret _ _ _ _ _ (buildPath_run path)).
  destruct (http_NewRequest_err _ _ _) as [e|].
  - by rewrite (bind_Ret _ _ _ _ _ (proj1 (healthy_fails _))).
  - unfold populateReq, bind, get_client, deref. by rewrite Hc.
Qed.

(** [do] on a builder that just failed, whatever the request. *)
Lemma do_after_failure (e : error) (req : option Request) :
  ∃ w s', do env c req (builder_failure s cl y e) = Ret w s' ∧
          absent_response_inspector s' c w e.
Proof.
  destruct (healthy_fails e) as [_ Herr].
  unfold do. rewrite (bind_Ret _ _ _ _ _ Herr).
  apply Error_inv in Herr as Hpeek. destruct Hpeek as [_ Hpeek].
  unfold peek_err in Hpeek.
  destruct (clients (builder_failure s cl y e) !! c) as [x1|] eqn:Hx1; [|done].
  unfold bind at 1, get_client, deref. rewrite Hx1.
  by apply inspector_around_nothing.
Qed.

Lemma do_transport_fails (rq : Request) (hc : http_Client) (e : error) :
  httpClients s !! httpClient x = Some hc →
  httpClient_Do env (trace s) (Jar hc) rq = (None, Some e) →
  ∃ w s', do env c (Some rq) s = Ret w s' ∧
          absent_response_inspector s' c w (Wrap e "doing request").
Proof.
  intros Hhc Hdo. unfold do.
  rewrite (bind_Ret _ _ _ _ _ healthy_errGetter).
  unfold bind at 1, ret at 1.
  unfold bind at 1, httpClient_Do_call, bind at 1, get_client, deref.
  rewrite Hc. unfold bind at 1, get_httpClient, deref. rewrite Hhc.
  unfold bind at 1, get_store. unfold bind at 1, log, modify_store.
  rewrite Hdo. unfold ret at 1. cbn [snd fst].
  set (s1 := with_trace (cons (EvDo rq)) s).
  apply channel_of_Some in Hch as [Hget Hset].
  assert (Hc1 : clients s1 !! c = Some x) by done.
  assert (Hy1 : clients s1 !! cl = Some y) by done.
  rewrite (bind_Ret _ _ _ _ _
             (errSetter_of_run s1 c x cl y _ Hc1 Hset Hy1)).
  apply inspector_around_nothing.
  by apply Error_after_failure with (x := x).
Qed.

Lemma doReq_construction_fails (method path : string) (body : option string)
    (e : error) :
  http_NewRequest_err env method (target x path) = Some e →
  ∃ w s', doReq env c method path body s = Ret w s' ∧
          absent_response_inspector s' c w (Wrap e "creating request").
Proof.
  intros Hnew. unfold doReq.
  rewrite (bind_Ret _ _ _ _ _ healthy_errGetter).
  unfold bind at 1. rewrite buildReq_run, Hnew.
  apply do_after_failure.
Qed.

Lemma doReq_transport_fails (method path : string) (body : option string)
    (hc : http_Client) (e : error) :
  http_NewRequest_err env method (target x path) = None →
  httpClients s !! httpClient x = Some hc →
  httpClient_Do env (trace s) (Jar hc) (populated env x method path body)
  = (None, Some e) →
  ∃ w s', doReq env c method path body s = Ret w s' ∧
          absent_response_inspector s' c w (Wrap e "doing request").
Proof.
  intros Hnew Hhc Hdo. unfold doReq.
  rewrite (bind_Ret _ _ _ _ _ healthy_errGetter).
  unfold bind at 1. rewrite buildReq_run, Hnew.
  by apply do_transport_fails with (hc := hc).
Qed.

(** [doReqForm] dereferences the nil request of a failed [buildReq]. *)
Lemma doReqForm_construction_panics (method path : string)
    (body : list (string * list string)) (e : error) :
  http_NewRequest_err env method (target x path) = Some e →
  doReqForm env c method path body s
  = Panic (builder_failure s cl y (Wrap e "creating request")).
Proof.
  intros Hnew. unfold doReqForm.
  rewrite (bind_Ret _ _ _ _ _ healthy_errGetter).
  unfold bind at 1. by rewrite buildReq_run, Hnew.
Qed.

Lemma doReqForm_transport_fails (method path : string)
    (body : list (string * list string)) (hc : http_Client) (e : error) :
  http_NewRequest_err env method (target x path) = None →
  httpClients s !! httpClient x = Some hc →
  httpClient_Do env (trace s) (Jar hc)
    (with_content_type env
       (populated env x method path (Some (Values_Encode env body))))
  = (None, Some e) →
  ∃ w s', doReqForm env c method path body s = Ret w s' ∧
          absent_response_inspector s' c w (Wrap e "doing request").
Proof.
  intros Hnew Hhc Hdo. unfold doReqForm.
  rewrite (bind_Ret _ _ _ _ _ healthy_errGetter).
  unfold bind at 1. rewrite buildReq_run, Hnew.
  unfold bind at 1, ret at 1.
  by apply do_transport_fails with (hc := hc).
Qed.

End Healthy.
End Failures.

Lemma doReqJSON_run (env : Env) (s : Store) (c : loc) (x : client) (cl : loc)
    (y : client) (method path : string) (b : any) :
  clients s !! c = Some x → channel_of x = Some cl →
  clients s !! cl = Some y → err y = None →
  doReqJSON env c method path b s
  = match json_Marshal env b with
    | inr e =>
        Ret new_nop
            (builder_failure (with_trace (cons (EvMarshal b)) s) cl y
               (Wrap e "marshalling JSON body"))
    | inl bs =>
        doReq env c method path (Some bs) (with_trace (cons (EvMarshal b)) s)
    end.
Proof.
  intros Hc Hch Hy He. unfold doReqJSON.
  rewrite (bind_Ret _ _ _ _ _ (healthy_errGetter s c x cl y Hc Hch Hy He)).
  unfold bind at 1, log, modify_store.
  destruct (json_Marshal env b) as [bs|e]; [done|].
  set (s1 := with_trace (cons (EvMarshal b)) s).
  by rewrite (bind_Ret _ _ _ _ _
                (proj1 (healthy_fails s1 c x cl y Hc Hch Hy _))).
Qed.

(** ** C3: how an action fails *)

(** C3, as the code has it.  On a builder with no error: when the JSON body
    does not marshal, the action records "marshalling JSON body" and returns
    the null inspector; when the request cannot be constructed, every action
    but the form variant records "creating request" and returns an inspector
    around no response whose accessor reports that error; when the transport
    returns an error and no response, every action records "doing request"
    and returns such an inspector. *)
Theorem action_failure_is_sticky (env : Env) (s : Store) (c : loc)
    (x : client) (cl : loc) (y : client) (a : Action) :
  clients s !! c = Some x →
  channel_of x = Some cl →
  clients s !! cl = Some y →
  err y = None →
  (∀ e, action_payload env a = inr e →
     ∃ s', act env c a s = Ret new_nop s' ∧
           Error c s' = Ret (Some (Wrap e "marshalling JSON body")) s') ∧
  (∀ body e, action_payload env a = inl body →
     is_form a = false →
     http_NewRequest_err env (action_method a) (target x (action_path a))
     = Some e →
     ∃ w s', act env c a s = Ret w s' ∧
             absent_response_inspector s' c w (Wrap e "creating request")) ∧
  (∀ body e hc, action_payload env a = inl body →
     http_NewRequest_err env (action_method a) (target x (action_path a))
     = None →
     httpClients s !! httpClient x = Some hc →
     (∀ tr, httpClient_Do env tr (Jar hc) (request_for env x a body)
            = (None, Some e)) →
     ∃ w s', act env c a s = Ret w s' ∧
             absent_response_inspector s' c w (Wrap e "doing request")).
Proof.
  intros Hc Hch Hy He.
  pose proof (healthy_errGetter s c x cl y Hc Hch Hy He) as Hget.
  split_and!.
  - intros e Hpay.
    destruct a as [p|p|p b|p b|p b|p|p|p|p b|p b|p b|p b|p b|p b|p b]; cbn in Hpay; try done.
    all: destruct (json_Marshal env b) as [bs|e'] eqn:Hm; [done|].
    all: injection Hpay as ->.
    all: cbn [act]; unfold Patch, Post, Put.
    all: rewrite (doReqJSON_run env s c x cl y _ _ _ Hc Hch Hy He), Hm.
    all: eexists; split; [done|].
    all: by apply (healthy_fails (with_trace (cons (EvMarshal b)) s)
                     c x cl y).
  - intros body e Hpay Hform Hnew.
    destruct a as [p|p|p b|p b|p b|p|p|p|p b|p b|p b|p b|p b|p b|p b]; cbn in Hpay, Hform, Hnew; try done.
    all: cbn [act];
      unfold Delete, Get, Patch, Post, Put, PatchNoBody, PostNoBody,
        PutNoBody, PatchString, PostString, PutString, PatchBytes, PostBytes,
        PutBytes, doReqNoBody, doReqString, doReqBytes.
    all: try (rewrite (bind_Ret _ _ _ _ _ Hget);
              by apply (doReq_construction_fails env s c x cl y)).
    all: rewrite (doReqJSON_run env s c x cl y _ _ _ Hc Hch Hy He).
    all: destruct (json_Marshal env b) as [bs|e'] eqn:Hm; [|done].
    all: by apply (doReq_construction_fails env
                     (with_trace (cons (EvMarshal b)) s) c x cl y).
  - intros body e hc Hpay Hnew Hhc Hdo.
    destruct a as [p|p|p b|p b|p b|p|p|p|p b|p b|p b|p b|p b|p b|p b]; cbn in Hpay, Hnew; unfold request_for in Hdo; cbn in Hdo.
    all: cbn [act];
      unfold Delete, Get, Patch, Post, Put, PatchNoBody, PostNoBody,
        PutNoBody, PatchString, PostString, PutString, PatchBytes, PostBytes,
        PutBytes, PostForm, doReqNoBody, doReqString, doReqBytes.
    all: try (injection Hpay as <-).
    all: try (rewrite (bind_Ret _ _ _ _ _ Hget);
              by apply (doReq_transport_fails env s c x cl y Hc Hch Hy He
                          _ _ _ hc)).
    all: try (by apply (doReqForm_transport_fails env s c x cl y Hc Hch Hy He
                          _ _ _ hc)).
    all: rewrite (doReqJSON_run env s c x cl y _ _ _ Hc Hch Hy He).
    all: destruct (json_Marshal env b) as [bs|e'] eqn:Hm; [|done].
    all: injection Hpay as <-.
    all: by apply (doReq_transport_fails env
                     (with_trace (cons (EvMarshal b)) s) c x cl y
                     Hc Hch Hy He _ _ _ hc).
Qed.

Lemma action_failure_is_sticky_witness :
  ∃ w s', act test_env 0 (CallGet "/p") (store_of (NewClient ":" empty_store))
          = Ret w s' ∧
          absent_response_inspector s' 0 w
            (Wrap (External "missing protocol scheme") "creating request").
Proof.
  apply (proj1 (proj2 (action_failure_is_sticky test_env
           (store_of (NewClient ":" empty_store)) 0 bad_url_client 0
           bad_url_client (CallGet "/p") eq_refl eq_refl eq_refl eq_refl))
           None); reflexivity.
Defined.

(** C3 as stated fails: a JSON body that does not marshal yields the null
    inspector, which is no inspector around an absent response, and
    [PostForm] to a URL that does not parse panics once the error is set. *)
Lemma action_failure_not_uniform :
  value_of (post_func empty_store) = Some (PtrNop NopResponseWrapper) ∧
  (∀ r, value_of (post_func empty_store) ≠ Some (PtrResponseWrapper r)) ∧
  panicked (post_form_bad_url empty_store) = true ∧
  value_of (Error 0 (store_of (post_form_bad_url empty_store)))
  = Some (Some (Wrap (External "missing protocol scheme") "creating request")).
Proof. vm_compute. split_and!; done. Qed.

(** A body that fails to read: the failure is recorded, the body is empty. *)
Example failing_body_read :
  let s := store_of (inspect_failing_body empty_store) in
  value_of (Error 0 s)
  = Some (Some (Wrap (External "read error") "reading response body")) ∧
  value_of (rw_Body 0 s) = Some "".
Proof. vm_compute. done. Qed.

(** ** Frames: what a computation leaves alone *)

Section Keeps.
Context (R1 R2 R3 : Store → Store → Prop).
Hypothesis compose : ∀ s1 s2 s3, R1 s1 s2 → R2 s2 s3 → R3 s1 s3.
Hypothesis weaken : ∀ s1 s2, R1 s1 s2 → R3 s1 s2.

Lemma keeps_bind_graded {A B} (m : M A) (k : A → M B) :
  keeps R1 m → (∀ a, keeps R2 (k a)) → keeps R3 (bind m k).
Proof.
  intros Hm Hk s. unfold bind. specialize (Hm s).
  destruct (m s) as [a s1|s1]; cbn in *.
  - by apply compose with s1, Hk.
  - by apply weaken.
Qed.

End Keeps.

Section KeepsPreorder.
Context (R : Store → Store → Prop) `{!PreOrder R}.

Lemma keeps_bind {A B} (m : M A) (k : A → M B) :
  keeps R m → (∀ a, keeps R (k a)) → keeps R (bind m k).
Proof.
  apply keeps_bind_graded; [|done]. intros s1 s2 s3 ??. by trans s2.
Qed.

Lemma keeps_ret {A} (a : A) : keeps R (ret a).
Proof. intros s. done. Qed.

Lemma keeps_panic {A} : keeps R (@panic A).
Proof. intros s. done. Qed.

Lemma keeps_when (b : bool) (m : M unit) : keeps R m → keeps R (when b m).
Proof. destruct b; [done | intros _; apply keeps_ret]. Qed.

Lemma keeps_deref {A} (heap : Store → gmap loc A) (p : loc) :
  keeps R (deref heap p).
Proof. intros s. unfold deref. by destruct (heap s !! p). Qed.

Lemma keeps_get_store : keeps R get_store.
Proof. intros s. done. Qed.

Lemma keeps_modify (f : Store → Store) :
  (∀ s, R s (f s)) → keeps R (modify_store f).
Proof. intros H s. apply H. Qed.

Lemma keeps_errGetter_of (c : loc) : keeps R (errGetter_of c).
Proof.
  apply keeps_bind; [apply keeps_deref|]. intros x.
  destruct (errGetter x) as [cl]. cbn [call_errGetter].
  apply keeps_bind; [apply keeps_deref | intros; apply keeps_ret].
Qed.

Lemma keeps_rw_error (r : loc) : keeps R (rw_error r).
Proof.
  apply keeps_bind; [apply keeps_deref|]. intros w.
  destruct (error_ w). apply keeps_errGetter_of.
Qed.

Lemma keeps_rw_resp (r : loc) : keeps R (rw_resp r).
Proof.
  apply keeps_bind; [apply keeps_deref|]. intros w.
  destruct (resp w); [apply keeps_ret | apply keeps_panic].
Qed.

(** Everything that records an error does so through [update_client]. *)
Hypothesis record : ∀ s cl y e,
  clients s !! cl = Some y →
  R s (with_clients (insert cl (set_err (Some e) y)) s).

Lemma keeps_call_errSetter (f : errSetterFn) (e : error) :
  keeps R (call_errSetter f e).
Proof.
  destruct f as [cl]. intros s. cbn [call_errSetter].
  unfold update_client, bind, get_client, deref.
  destruct (clients s !! cl) as [y|] eqn:Hy; cbn; [by apply record | done].
Qed.

Lemma keeps_errSetter_of (c : loc) (e : error) : keeps R (errSetter_of c e).
Proof.
  apply keeps_bind; [apply keeps_deref|]. intros x.
  apply keeps_call_errSetter.
Qed.

Lemma keeps_call_setError (env : Env) (f : setErrorFn) (e : error) :
  keeps R (call_setError env f e).
Proof.
  destruct f; [apply keeps_call_errSetter | apply keeps_errSetter_of].
Qed.

Lemma keeps_rw_setError (env : Env) (r : loc) (e : error) :
  keeps R (rw_setError env r e).
Proof.
  apply keeps_bind; [apply keeps_deref|]. intros w.
  apply keeps_call_setError.
Qed.

End KeepsPreorder.

(** ** Assertions stay off the network and off the streams *)

#[local] Instance assertion_frame_preorder : PreOrder assertion_frame.
Proof.
  split.
  - intros s. by repeat split.
  - intros s1 s2 s3 (?&?&?&?&?&?) (?&?&?&?&?&?).
    repeat split; congruence.
Qed.

Lemma assertion_frame_record (s : Store) (cl : loc) (y : client) (e : error) :
  clients s !! cl = Some y →
  assertion_frame s (with_clients (insert cl (set_err (Some e) y)) s).
Proof.
  intros Hy. repeat split. cbn. rewrite fmap_insert.
  apply insert_id. by rewrite lookup_fmap, Hy.
Qed.

Lemma assertion_frame_log (ev : Event) :
  is_io ev = false → keeps assertion_frame (log ev).
Proof.
  intros Hev s. repeat split. unfold io_events. cbn. by rewrite Hev.
Qed.

Ltac frame_steps R record_lemma :=
  repeat first
    [ apply (keeps_ret R)
    | apply (keeps_panic R)
    | apply (keeps_rw_error R)
    | apply (keeps_rw_resp R)
    | apply (keeps_deref R)
    | apply (keeps_get_store R)
    | apply (keeps_rw_setError R record_lemma)
    | apply (keeps_when R)
    | apply (keeps_bind R); [|intros ?]
    | match goal with
      | |- keeps _ (match ?x with _ => _ end) => destruct x
      end ].

Lemma rw_call_frame (env : Env) (r : loc) (a : Assertion) :
  keeps assertion_frame (rw_call env r a).
Proof.
  destruct a; cbn [rw_call];
    unfold ExpectBodyContains, ExpectBodyEquals, ExpectBodyNotContains,
      ExpectBodyNotEquals, ExpectBodyPasses, ExpectHeaderContains,
      ExpectHeaderEquals, ExpectHeaderNotContains, ExpectHeaderNotEquals,
      ExpectHeaderNotPresent, ExpectHeaderPresent, ExpectPasses,
      ExpectStatus, ParseBody, get_wrapper.
  all: frame_steps assertion_frame assertion_frame_record.
  all: try (by apply assertion_frame_log).
  all: try (apply (keeps_modify assertion_frame); intros s; by repeat split).
Qed.

(** X1. Whatever the store, an assertion method of an inspector leaves the
    body streams, the inspectors, the HTTP clients and the cookie jars as
    they were, adds no transport call and no body read to the trace, and
    changes no field of any builder but [err]: the body is never read
    again after construction. *)
Theorem assertions_never_do_io (env : Env) (r : loc) (a : Assertion)
    (s : Store) :
  assertion_frame s (store_of (rw_call env r a s)).
Proof. apply rw_call_frame. Qed.

(** ** One transport call per action *)

#[local] Instance same_calls_preorder : PreOrder same_calls.
Proof.
  split; [by intros s|]. intros s1 s2 s3. unfold same_calls. congruence.
Qed.

Lemma same_calls_record (s : Store) (cl : loc) (y : client) (e : error) :
  clients s !! cl = Some y →
  same_calls s (with_clients (insert cl (set_err (Some e) y)) s).
Proof. done. Qed.

Lemma same_then_one (s1 s2 s3 : Store) :
  same_calls s1 s2 → one_more_call s2 s3 → one_more_call s1 s3.
Proof. unfold same_calls, one_more_call. lia. Qed.

Lemma one_then_same (s1 s2 s3 : Store) :
  one_more_call s1 s2 → same_calls s2 s3 → one_more_call s1 s3.
Proof. unfold same_calls, one_more_call. lia. Qed.

Lemma same_is_one (s1 s2 : Store) : same_calls s1 s2 → one_more_call s1 s2.
Proof. unfold same_calls, one_more_call. lia. Qed.

Lemma one_more_refl (s : Store) : one_more_call s s.
Proof. unfold one_more_call. lia. Qed.

Lemma keeps_same_update_client (p : loc) (f : client → client) :
  keeps same_calls (update_client p f).
Proof.
  intros s. unfold update_client, bind, get_client, deref.
  by destruct (clients s !! p).
Qed.

Lemma keeps_same_update_httpClient (p : loc) (f : http_Client → http_Client) :
  keeps same_calls (update_httpClient p f).
Proof.
  intros s. unfold update_httpClient, bind, get_httpClient, deref.
  by destruct (httpClients s !! p).
Qed.

Lemma keeps_same_update_wrapper (p : loc)
    (f : responseWrapper → responseWrapper) :
  keeps same_calls (update_wrapper p f).
Proof.
  intros s. unfold update_wrapper, bind, get_wrapper, deref.
  by destruct (wrappers s !! p).
Qed.

Lemma keeps_same_log (ev : Event) :
  is_Do ev = false → keeps same_calls (log ev).
Proof.
  intros Hev s. unfold same_calls, transport_calls. cbn. by rewrite Hev.
Qed.

Ltac same_steps :=
  repeat first
    [ apply (keeps_ret same_calls)
    | apply (keeps_panic same_calls)
    | apply (keeps_errGetter_of same_calls)
    | apply (keeps_errSetter_of same_calls same_calls_record)
    | apply (keeps_call_setError same_calls same_calls_record)
    | apply (keeps_deref same_calls)
    | apply (keeps_get_store same_calls)
    | apply keeps_same_update_client
    | apply keeps_same_update_httpClient
    | apply keeps_same_update_wrapper
    | apply keeps_same_log; reflexivity
    | apply (keeps_modify same_calls); intros ?; reflexivity
    | apply (keeps_bind same_calls); [|intros ?]
    | match goal with
      | |- keeps _ (match ?x with _ => _ end) => destruct x
      end ].

Lemma keeps_same_newResponseWrapper (env : Env) (resp : option Response)
    (g : errCheckerFn) (f : setErrorFn) :
  keeps same_calls (newResponseWrapper env resp g f).
Proof.
  unfold newResponseWrapper, ioutil_ReadAll, get_body.
  apply (keeps_bind same_calls); [by intros s|]. intros r.
  destruct g as [c]. unfold call_errChecker, Error.
  same_steps.
Qed.

Lemma keeps_same_buildReq (env : Env) (c : loc) (method path : string)
    (body : option string) :
  keeps same_calls (buildReq env c method path body).
Proof. unfold buildReq, buildPath, populateReq, get_client. same_steps. Qed.

Lemma keeps_same_configure (env : Env) (c : loc) (a : Config) :
  keeps same_calls (configure env c a).
Proof.
  destruct a; cbn [configure];
    unfold NoBasicAuth, UseBasicAuth, UseCookies, WithHeader, WithTimeout,
      Clone, get_client.
  all: same_steps.
Qed.

Lemma keeps_one_Do_call (env : Env) (c : loc) (rq : Request) :
  keeps one_more_call (httpClient_Do_call env c rq).
Proof.
  intros s. unfold httpClient_Do_call, bind, get_client, get_httpClient,
    deref, get_store, log, modify_store.
  destruct (clients s !! c) as [x|]; cbn; [|apply one_more_refl].
  destruct (httpClients s !! httpClient x) as [hc|]; cbn;
    [|apply one_more_refl].
  destruct (httpClient_Do env (trace s) (Jar hc) rq) as [[rr|] e]; cbn.
  all: unfold one_more_call, transport_calls; cbn; lia.
Qed.

Lemma keeps_one_do (env : Env) (c : loc) (req : option Request) :
  keeps one_more_call (do env c req).
Proof.
  unfold do.
  apply (keeps_bind_graded same_calls one_more_call one_more_call
           same_then_one same_is_one);
    [apply (keeps_errGetter_of same_calls)|].
  intros [e|].
  - intros s. apply same_is_one. revert s.
    apply (keeps_bind same_calls); [apply (keeps_deref same_calls)|].
    intros x. apply keeps_same_newResponseWrapper.
  - apply (keeps_bind_graded same_calls one_more_call one_more_call
             same_then_one same_is_one).
    { destruct req; [apply (keeps_ret same_calls)
                    | apply (keeps_panic same_calls)]. }
    intros rq.
    apply (keeps_bind_graded one_more_call same_calls one_more_call
             one_then_same (λ _ _ H, H));
      [apply keeps_one_Do_call|].
    intros res. apply (keeps_bind same_calls).
    + destruct (res.2); same_steps.
    + intros _. apply keeps_same_newResponseWrapper.
Qed.

Lemma keeps_one_doReq (env : Env) (c : loc) (method path : string)
    (body : option string) :
  keeps one_more_call (doReq env c method path body).
Proof.
  unfold doReq.
  apply (keeps_bind_graded same_calls one_more_call one_more_call
           same_then_one same_is_one);
    [apply (keeps_errGetter_of same_calls)|].
  intros [e|]; [intros s; apply one_more_refl|].
  apply (keeps_bind_graded same_calls one_more_call one_more_call
           same_then_one same_is_one);
    [apply keeps_same_buildReq|].
  intros req. apply keeps_one_do.
Qed.

(** X2. Whatever the store and the outcome, an action method makes at most
    one transport call; a configuration method or [Clone] makes none. *)
Theorem at_most_one_transport_call (env : Env) (c : loc) (s : Store) :
  (∀ a : Action,
     (transport_calls (store_of (act env c a s))
      ≤ S (transport_calls s))%nat) ∧
  (∀ a : Config,
     transport_calls (store_of (configure env c a s)) = transport_calls s).
Proof.
  split; [|intros a; apply keeps_same_configure].
  intros a. revert s. change (keeps one_more_call (act env c a)).
  destruct a as [p|p|p b|p b|p b|p|p|p|p b|p b|p b|p b|p b|p b|p b];
    cbn [act];
    unfold Delete, Get, Patch, Post, Put, PatchNoBody, PostNoBody, PutNoBody,
      PatchString, PostString, PutString, PatchBytes, PostBytes, PutBytes,
      PostForm, doReqNoBody, doReqJSON, doReqString, doReqBytes, doReqForm.
  all: apply (keeps_bind_graded same_calls one_more_call one_more_call
                same_then_one same_is_one);
    [apply (keeps_errGetter_of same_calls)|].
  all: intros [e|]; [intros s; apply one_more_refl|].
  all: try apply keeps_one_doReq.
  - apply (keeps_bind_graded same_calls one_more_call one_more_call
             same_then_one same_is_one);
      [by apply keeps_same_log|].
    intros _. destruct (json_Marshal env b); [apply keeps_one_doReq|].
    intros s. apply same_is_one. revert s. same_steps.
  - apply (keeps_bind_graded same_calls one_more_call one_more_call
             same_then_one same_is_one);
      [by apply keeps_same_log|].
    intros _. destruct (json_Marshal env b); [apply keeps_one_doReq|].
    intros s. apply same_is_one. revert s. same_steps.
  - apply (keeps_bind_graded same_calls one_more_call one_more_call
             same_then_one same_is_one);
      [by apply keeps_same_log|].
    intros _. destruct (json_Marshal env b); [apply keeps_one_doReq|].
    intros s. apply same_is_one. revert s. same_steps.
  - apply (keeps_bind_graded same_calls one_more_call one_more_call
             same_then_one same_is_one);
      [apply keeps_same_buildReq|].
    intros req.
    apply (keeps_bind_graded same_calls one_more_call one_more_call
             same_then_one same_is_one).
    { destruct req; [apply (keeps_ret same_calls)
                    | apply (keeps_panic same_calls)]. }
    intros rq. apply keeps_one_do.
Qed.

(** ** A request that is answered *)

Lemma do_delivers (env : Env) (s : Store) (c : loc) (x : client) (cl : loc)
    (y : client) (rq : Request) (hc : http_Client) (raw : RawResponse) :
  clients s !! c = Some x → channel_of x = Some cl →
  clients s !! cl = Some y → err y = None →
  httpClients s !! httpClient x = Some hc →
  httpClient_Do env (trace s) (Jar hc) rq = (Some raw, None) →
  raw_ReadErr raw = None →
  let b := fresh (dom (bodies s)) in
  let r := fresh (dom (wrappers s)) in
  do env c (Some rq) s
  = Ret (PtrResponseWrapper r)
        {| clients := clients s; httpClients := httpClients s;
           wrappers := <[r := {| error_ := MethodError c;
                                 setError := DoErrSetter c rq;
                                 resp := Some (response_of raw b);
                                 body := raw_Body raw |}]> (wrappers s);
           bodies := <[b := {| unread := ""; read_err := None;
                               closed := false |}]> (bodies s);
           vars := vars s; jars := jars s;
           trace := EvReadAll b :: EvDo rq :: trace s |}.
Proof.
  intros Hc Hch Hy He Hhc Hdo Hread b r. unfold do.
  rewrite (bind_Ret _ _ _ _ _ (healthy_errGetter s c x cl y Hc Hch Hy He)).
  unfold bind at 1, ret at 1.
  unfold bind at 1, httpClient_Do_call, bind at 1, get_client, deref.
  rewrite Hc. unfold bind at 1, get_httpClient, deref. rewrite Hhc.
  unfold bind at 1, get_store. unfold bind at 1, log, modify_store.
  rewrite Hdo. unfold bind at 1, alloc_body, ret at 1. cbn [snd fst].
  unfold bind at 1, ret at 1.
  set (st := {| unread := raw_Body raw; read_err := raw_ReadErr raw;
                closed := false |}).
  set (s2 := with_bodies (insert (fresh (dom (bodies (with_trace
               (cons (EvDo rq)) s)))) st) (with_trace (cons (EvDo rq)) s)).
  apply channel_of_Some in Hch as [Hget Hset].
  assert (Hnone : call_errChecker (MethodError c) s2 = Ret None s2).
  { rewrite (call_errChecker_cell s2 (MethodError c) cl y), He; [done| |done].
    by apply getter_cell_client with (x := x). }
  rewrite (newResponseWrapper_read_ok env s2 _ _ _ st Hnone).
  - f_equal. unfold s2, st. cbn. fold b. by rewrite insert_insert_eq.
  - cbn. by rewrite lookup_insert_eq.
  - exact Hread.
Qed.

(** X3. On a builder with no error, an action whose body marshals (if it
    is a JSON body), whose request can be constructed, and which the
    transport answers with a readable body returns a new inspector around
    that response.  The inspector's body is the response's body, the
    builders are unchanged (no error is set), the body stream is at its
    end, and the trace gains the marshalling, one transport call with the
    request built from the builder, and one read. *)
Theorem action_delivers_response (env : Env) (s : Store) (c : loc)
    (x : client) (cl : loc) (y : client) (a : Action) (body : option string)
    (hc : http_Client) (raw : RawResponse) :
  clients s !! c = Some x →
  channel_of x = Some cl →
  clients s !! cl = Some y →
  err y = None →
  action_payload env a = inl body →
  http_NewRequest_err env (action_method a) (target x (action_path a))
  = None →
  httpClients s !! httpClient x = Some hc →
  (∀ tr, httpClient_Do env tr (Jar hc) (request_for env x a body)
         = (Some raw, None)) →
  raw_ReadErr raw = None →
  let b := fresh (dom (bodies s)) in
  let r := fresh (dom (wrappers s)) in
  ∃ s', act env c a s = Ret (PtrResponseWrapper r) s' ∧
        wrappers s' !! r
        = Some {| error_ := MethodError c;
                  setError := DoErrSetter c (request_for env x a body);
                  resp := Some (response_of raw b);
                  body := raw_Body raw |} ∧
        rw_Body r s' = Ret (raw_Body raw) s' ∧
        clients s' = clients s ∧
        Error c s' = Ret None s' ∧
        bodies s' !! b
        = Some {| unread := ""; read_err := None; closed := false |} ∧
        trace s'
        = EvReadAll b :: EvDo (request_for env x a body)
            :: (marshal_events a ++ trace s)%list.
Proof.
  intros Hc Hch Hy He Hpay Hnew Hhc Hdo Hread b r.
  pose proof (healthy_errGetter s c x cl y Hc Hch Hy He) as Hget.
  assert (Hend : ∀ (s0 : Store),
            clients s0 = clients s → httpClients s0 = httpClients s →
            wrappers s0 = wrappers s → bodies s0 = bodies s →
            trace s0 = (marshal_events a ++ trace s)%list →
            ∃ s', do env c (Some (request_for env x a body)) s0
                  = Ret (PtrResponseWrapper r) s' ∧
        wrappers s' !! r
        = Some {| error_ := MethodError c;
                  setError := DoErrSetter c (request_for env x a body);
                  resp := Some (response_of raw b);
                  body := raw_Body raw |} ∧
        rw_Body r s' = Ret (raw_Body raw) s' ∧
        clients s' = clients s ∧
        Error c s' = Ret None s' ∧
        bodies s' !! b
        = Some {| unread := ""; read_err := None; closed := false |} ∧
        trace s'
        = EvReadAll b :: EvDo (request_for env x a body)
            :: (marshal_events a ++ trace s)%list).
  { intros s0 H1 H2 H3 H4 H5.
    pose proof (do_delivers env s0 c x cl y (request_for env x a body)
                  hc raw) as Hd.
    rewrite H1, H2 in Hd.
    specialize (Hd Hc Hch Hy He Hhc (Hdo _) Hread). cbn zeta in Hd.
    rewrite H3, H4, H5 in Hd. fold b r in Hd.
    eexists. split; [exact Hd|].
    split_and!; cbn.
    - by rewrite lookup_insert_eq.
    - unfold rw_Body, bind, get_wrapper, deref. cbn.
      by rewrite lookup_insert_eq.
    - done.
    - rewrite Error_peek.
      apply Error_inv in Hget as [_ Hpeek]. unfold peek_err in *. cbn.
      by rewrite Hpeek.
    - by rewrite lookup_insert_eq.
    - done. }
  assert (HdoReq : ∀ (s0 : Store) body',
            clients s0 = clients s → httpClients s0 = httpClients s →
            wrappers s0 = wrappers s → bodies s0 = bodies s →
            trace s0 = (marshal_events a ++ trace s)%list →
            populated env x (action_method a) (action_path a) body'
            = request_for env x a body →
            ∃ s', doReq env c (action_method a) (action_path a) body' s0
                  = Ret (PtrResponseWrapper r) s' ∧
        wrappers s' !! r
        = Some {| error_ := MethodError c;
                  setError := DoErrSetter c (request_for env x a body);
                  resp := Some (response_of raw b);
                  body := raw_Body raw |} ∧
        rw_Body r s' = Ret (raw_Body raw) s' ∧
        clients s' = clients s ∧
        Error c s' = Ret None s' ∧
        bodies s' !! b
        = Some {| unread := ""; read_err := None; closed := false |} ∧
        trace s'
        = EvReadAll b :: EvDo (request_for env x a body)
            :: (marshal_events a ++ trace s)%list).
  { intros s0 body' H1 H2 H3 H4 H5 Hrq.
    assert (Hc0 : clients s0 !! c = Some x) by by rewrite H1.
    assert (Hy0 : clients s0 !! cl = Some y) by by rewrite H1.
    unfold doReq.
    rewrite (bind_Ret _ _ _ _ _
               (healthy_errGetter s0 c x cl y Hc0 Hch Hy0 He)).
    unfold bind at 1.
    rewrite (buildReq_run env s0 c x cl y Hc0 Hch Hy0), Hnew, Hrq.
    by apply Hend. }
  destruct a as [p|p|p v|p v|p v|p|p|p|p v|p v|p v|p v|p v|p v|p v];
    cbn in Hpay, Hnew; cbn [act];
    unfold Delete, Get, Patch, Post, Put, PatchNoBody, PostNoBody, PutNoBody,
      PatchString, PostString, PutString, PatchBytes, PostBytes, PutBytes,
      PostForm, doReqNoBody, doReqString, doReqBytes.
  all: try (injection Hpay as <-).
  all: try (rewrite (bind_Ret _ _ _ _ _ Hget); by apply HdoReq).
  all: try (rewrite (doReqJSON_run env s c x cl y _ _ _ Hc Hch Hy He);
            destruct (json_Marshal env v) as [bs|e'] eqn:Hm; [|done];
            injection Hpay as <-; by apply HdoReq).
  unfold doReqForm. rewrite (bind_Ret _ _ _ _ _ Hget).
  unfold bind at 1.
  rewrite (buildReq_run env s c x cl y Hc Hch Hy), Hnew.
  unfold bind at 1, ret at 1.
  by apply Hend.
Qed.

(** ** What each assertion decides *)

Lemma prefix_spec (p s : string) :
  String.prefix p s = true ↔ ∃ t, s = p +:+ t.
Proof.
  revert s. induction p as [|a p IH]; intros s.
  - split; [intros _; by exists s | by destruct s].
  - destruct s as [|b s]; cbn.
    + split; [done | intros [t Ht]; discriminate Ht].
    + destruct (Ascii.ascii_dec a b) as [->|Hne].
      * rewrite IH. split; intros [t Ht]; exists t.
        -- by rewrite Ht.
        -- by injection Ht.
      * split; [done|]. intros [t Ht]. injection Ht as ??. congruence.
Qed.

Lemma strings_Contains_nil (sub : string) :
  strings_Contains "" sub = String.prefix sub "".
Proof. by destruct sub. Qed.

Lemma strings_Contains_cons (a : ascii) (s sub : string) :
  strings_Contains (String a s) sub
  = if String.prefix sub (String a s) then true else strings_Contains s sub.
Proof. done. Qed.

(** [strings_Contains] finds exactly the substrings. *)
Lemma strings_Contains_spec (s sub : string) :
  strings_Contains s sub = true ↔ ∃ pre post, s = pre +:+ sub +:+ post.
Proof.
  split.
  - induction s as [|a s IH].
    + rewrite strings_Contains_nil. intros Hp.
      apply prefix_spec in Hp as [t Ht]. by exists "", t.
    + rewrite strings_Contains_cons.
      destruct (String.prefix sub (String a s)) eqn:Hp.
      * intros _. apply prefix_spec in Hp as [t Ht]. by exists "", t.
      * intros H. destruct (IH H) as (pre & post & ->).
        by exists (String a pre), post.
  - intros (pre & post & ->). induction pre as [|a pre IH].
    + assert (Hp : String.prefix sub (sub +:+ post) = true).
      { apply prefix_spec. by exists post. }
      change ("" +:+ sub +:+ post) with (sub +:+ post).
      destruct (sub +:+ post).
      * by rewrite strings_Contains_nil.
      * by rewrite strings_Contains_cons, Hp.
    + change (String a pre +:+ sub +:+ post)
        with (String a (pre +:+ sub +:+ post)).
      rewrite strings_Contains_cons, IH. by destruct (String.prefix _ _).
Qed.

Lemma get_wrapper_run (s : Store) (r : loc) (w : responseWrapper) :
  wrappers s !! r = Some w → get_wrapper r s = Ret w s.
Proof. intros H. unfold get_wrapper, deref. by rewrite H. Qed.

(** The verdict read off the store an assertion ends in. *)
Lemma passes_of_run (env : Env) (r : loc) (a : Assertion) (s s1 : Store)
    (w : responseWrapper) (cl : loc) (y : client) (b : bool) (e : error) :
  wrappers s1 !! r = Some w →
  getter_cell s1 (error_ w) = Some cl →
  clients s1 !! cl = Some y →
  err y = None →
  rw_call env r a s
  = Ret (PtrResponseWrapper r)
        (if b then record_failure env s1 cl y (setError w) e else s1) →
  passes env r a s = negb b.
Proof.
  intros Hw Hg Hy He Hrun. unfold passes. rewrite Hrun. destruct b.
  - by rewrite (rw_error_recorded env s1 r w cl y Hw Hg Hy).
  - by rewrite (rw_error_none s1 r w cl y Hw Hg Hy He).
Qed.

(** X4. On an inspector with no pending error the body checks decide what
    their names say: [ExpectBodyContains] passes exactly when the needle
    occurs in the body, [ExpectBodyEquals] exactly when the body is the
    value, the two negative checks exactly when the positive ones fail, and
    the two predicate checks exactly when the caller's function returns
    true. *)
Theorem body_checks_decide (env : Env) (s : Store) (r : loc)
    (w : responseWrapper) (cl : loc) (y : client) :
  wrappers s !! r = Some w →
  getter_cell s (error_ w) = Some cl →
  setter_cell s (setError w) = Some cl →
  clients s !! cl = Some y →
  err y = None →
  (∀ needle, passes env r (CallExpectBodyContains needle) s = true ↔
             ∃ pre post, body w = pre +:+ needle +:+ post) ∧
  (∀ needle, passes env r (CallExpectBodyNotContains needle) s = true ↔
             ¬ ∃ pre post, body w = pre +:+ needle +:+ post) ∧
  (∀ value, passes env r (CallExpectBodyEquals value) s = true ↔
            body w = value) ∧
  (∀ value, passes env r (CallExpectBodyNotEquals value) s = true ↔
            body w ≠ value) ∧
  (∀ f, passes env r (CallExpectBodyPasses f) s = f (body w)) ∧
  (∀ f, passes env r (CallExpectPasses f) s = f (resp w) (body w)).
Proof.
  intros Hw Hg Hf Hy He.
  pose proof (rw_error_none s r w cl y Hw Hg Hy He) as Hnone.
  pose proof (get_wrapper_run s r w Hw) as Hget.
  pose proof (check_when env s r w cl y Hw Hf Hy) as Hwhen.
  assert (Hrun : ∀ a (b : bool) e,
            rw_call env r a s
            = (when b (rw_setError env r e);;; ret (PtrResponseWrapper r)) s →
            passes env r a s = negb b).
  { intros a b e H. rewrite Hwhen in H.
    by apply (passes_of_run env r a s s w cl y b e). }
  split_and!.
  - intros needle. rewrite <- strings_Contains_spec.
    rewrite (Hrun _ (negb (strings_Contains (body w) needle))
               (Errorf "expected body to contain %q but it did not"
                       [ArgString needle])).
    + by rewrite negb_involutive.
    + cbn [rw_call]. unfold ExpectBodyContains.
      by rewrite (bind_Ret _ _ _ _ _ Hnone), (bind_Ret _ _ _ _ _ Hget).
  - intros needle. rewrite <- strings_Contains_spec.
    rewrite (Hrun _ (strings_Contains (body w) needle)
               (Errorf "expected body to not contain %q but it does"
                       [ArgString needle])).
    + by destruct (strings_Contains _ _).
    + cbn [rw_call]. unfold ExpectBodyNotContains.
      by rewrite (bind_Ret _ _ _ _ _ Hnone), (bind_Ret _ _ _ _ _ Hget).
  - intros value.
    rewrite (Hrun _ (negb (bool_decide (body w = value)))
               (Errorf "expected body to be %q but it was not"
                       [ArgString value])).
    + by rewrite negb_involutive, bool_decide_eq_true.
    + cbn [rw_call]. unfold ExpectBodyEquals.
      by rewrite (bind_Ret _ _ _ _ _ Hnone), (bind_Ret _ _ _ _ _ Hget).
  - intros value.
    rewrite (Hrun _ (bool_decide (body w = value))
               (Errorf "expected body not to be %q but it was"
                       [ArgString value])).
    + by rewrite negb_true_iff, bool_decide_eq_false.
    + cbn [rw_call]. unfold ExpectBodyNotEquals.
      by rewrite (bind_Ret _ _ _ _ _ Hnone), (bind_Ret _ _ _ _ _ Hget).
  - intros f.
    rewrite (passes_of_run env r _ s
               (with_trace (cons (EvPredicate (body w))) s) w cl y
               (negb (f (body w)))
               (Errorf "expected function to pass, but it did not" []));
      try done; [by rewrite negb_involutive|].
    cbn [rw_call]. unfold ExpectBodyPasses.
    rewrite (bind_Ret _ _ _ _ _ Hnone), (bind_Ret _ _ _ _ _ Hget).
    unfold bind at 1, log, modify_store.
    by apply (check_when env (with_trace (cons (EvPredicate (body w))) s)
                r w cl y).
  - intros f.
    rewrite (passes_of_run env r _ s
               (with_trace (cons (EvPredicate (body w))) s) w cl y
               (negb (f (resp w) (body w)))
               (Errorf "expected function to pass, but it did not" []));
      try done; [by rewrite negb_involutive|].
    cbn [rw_call]. unfold ExpectPasses.
    rewrite (bind_Ret _ _ _ _ _ Hnone), (bind_Ret _ _ _ _ _ Hget).
    unfold bind at 1, log, modify_store.
    by apply (check_when env (with_trace (cons (EvPredicate (body w))) s)
                r w cl y).
Qed.

Lemma existsb_elem_of {A} (f : A → bool) (l : list A) :
  existsb f l = true ↔ ∃ x, x ∈ l ∧ f x = true.
Proof.
  rewrite existsb_exists. split; intros (x & Hx & Hf); exists x.
  - by rewrite list_elem_of_In.
  - by rewrite <- list_elem_of_In.
Qed.

Lemma existsb_equal (l : list string) (needle : string) :
  existsb (λ value, bool_decide (value = needle)) l = true ↔ needle ∈ l.
Proof.
  rewrite existsb_elem_of. split.
  - intros (x & Hx & Heq). by apply bool_decide_eq_true in Heq as <-.
  - intros H. exists needle. split; [done|]. by apply bool_decide_eq_true.
Qed.

(** X5. On an inspector with no pending error around a response:
    [ExpectHeaderEquals] passes exactly when the response has a header map
    in which the key holds the value, [ExpectHeaderContains] exactly when
    it holds a value that contains the needle; [ExpectHeaderNotEquals],
    [ExpectHeaderNotContains] and [ExpectHeaderNotPresent] pass exactly
    when no value under the key matches (none at all for the last), the nil
    map counting as empty; [ExpectStatus] passes exactly on the response's
    status code. *)
Theorem header_and_status_checks_decide (env : Env) (s : Store) (r : loc)
    (w : responseWrapper) (cl : loc) (y : client) (rp : Response) :
  wrappers s !! r = Some w →
  getter_cell s (error_ w) = Some cl →
  setter_cell s (setError w) = Some cl →
  clients s !! cl = Some y →
  err y = None →
  resp w = Some rp →
  (∀ key value, passes env r (CallExpectHeaderEquals key value) s = true ↔
     RespHeader rp ≠ None ∧ value ∈ header_index (RespHeader rp) key) ∧
  (∀ key needle, passes env r (CallExpectHeaderContains key needle) s = true ↔
     RespHeader rp ≠ None ∧
     ∃ value, value ∈ header_index (RespHeader rp) key ∧
              strings_Contains value needle = true) ∧
  (∀ key value, passes env r (CallExpectHeaderNotEquals key value) s = true ↔
     value ∉ header_index (RespHeader rp) key) ∧
  (∀ key needle,
     passes env r (CallExpectHeaderNotContains key needle) s = true ↔
     ¬ ∃ value, value ∈ header_index (RespHeader rp) key ∧
                strings_Contains value needle = true) ∧
  (∀ key, passes env r (CallExpectHeaderNotPresent key) s = true ↔
     header_index (RespHeader rp) key = []) ∧
  (∀ code, passes env r (CallExpectStatus code) s = true ↔
     StatusCode rp = code).
Proof.
  intros Hw Hg Hf Hy He Hr.
  pose proof (rw_error_none s r w cl y Hw Hg Hy He) as Hnone.
  pose proof (rw_resp_some s r w Hw rp Hr) as Hresp.
  pose proof (check_when env s r w cl y Hw Hf Hy) as Hwhen.
  pose proof (check_fails env s r w cl y Hw Hf Hy) as Hfail.
  assert (Hrun : ∀ a (b : bool) e,
            rw_call env r a s
            = (when b (rw_setError env r e);;; ret (PtrResponseWrapper r)) s →
            passes env r a s = negb b).
  { intros a b e H. rewrite Hwhen in H.
    by apply (passes_of_run env r a s s w cl y b e). }
  assert (Hbad : ∀ a e,
            rw_call env r a s
            = (rw_setError env r e;;; ret (PtrResponseWrapper r)) s →
            passes env r a s = false).
  { intros a e H. rewrite Hfail in H.
    by apply (passes_of_run env r a s s w cl y true e). }
  split_and!.
  - intros key value. destruct (RespHeader rp) as [m|] eqn:Hh.
    + rewrite (Hrun _ (negb (existsb (λ v, bool_decide (v = value))
                                (header_index (Some m) key)))
                 (Errorf "expected a header %q containing %q, but it did not"
                         [ArgString key; ArgString value])).
      * rewrite negb_involutive, existsb_equal. naive_solver.
      * cbn [rw_call]. unfold ExpectHeaderEquals.
        by rewrite (bind_Ret _ _ _ _ _ Hnone), (bind_Ret _ _ _ _ _ Hresp), Hh.
    + rewrite (Hbad _
                 (Errorf
                    "expected a header %q containing %q, but there are no headers"
                    [ArgString key; ArgString value])); [naive_solver|].
      cbn [rw_call]. unfold ExpectHeaderEquals.
      by rewrite (bind_Ret _ _ _ _ _ Hnone), (bind_Ret _ _ _ _ _ Hresp), Hh.
  - intros key needle. destruct (RespHeader rp) as [m|] eqn:Hh.
    + rewrite (Hrun _ (negb (existsb (λ v, strings_Contains v needle)
                                (header_index (Some m) key)))
                 (Errorf "expected a header %q containing %q, but it did not"
                         [ArgString key; ArgString needle])).
      * rewrite negb_involutive, existsb_elem_of. naive_solver.
      * cbn [rw_call]. unfold ExpectHeaderContains.
        by rewrite (bind_Ret _ _ _ _ _ Hnone), (bind_Ret _ _ _ _ _ Hresp), Hh.
    + rewrite (Hbad _
                 (Errorf
                    "expected a header %q containing %q, but there are no headers"
                    [ArgString key; ArgString needle])); [naive_solver|].
      cbn [rw_call]. unfold ExpectHeaderContains.
      by rewrite (bind_Ret _ _ _ _ _ Hnone), (bind_Ret _ _ _ _ _ Hresp), Hh.
  - intros key value.
    rewrite (Hrun _ (existsb (λ v, bool_decide (v = value))
                       (header_index (RespHeader rp) key))
               (Errorf "expected a header %q to not be %q, but it is"
                       [ArgString key; ArgString value])).
    + rewrite negb_true_iff, <- not_true_iff_false, existsb_equal. done.
    + cbn [rw_call]. unfold ExpectHeaderNotEquals.
      by rewrite (bind_Ret _ _ _ _ _ Hnone), (bind_Ret _ _ _ _ _ Hresp).
  - intros key needle. destruct (RespHeader rp) as [m|] eqn:Hh.
    + rewrite (Hrun _ (existsb (λ v, strings_Contains v needle)
                         (header_index (Some m) key))
                 (Errorf "expected a header %q to not contain %q, but it does"
                         [ArgString key; ArgString needle])).
      * rewrite negb_true_iff, <- not_true_iff_false, existsb_elem_of. done.
      * cbn [rw_call]. unfold ExpectHeaderNotContains.
        by rewrite (bind_Ret _ _ _ _ _ Hnone), (bind_Ret _ _ _ _ _ Hresp), Hh.
    + rewrite (Hrun _ false (External "")).
      * cbn. split; [|done]. intros _ (v & Hv & _). by apply elem_of_nil in Hv.
      * cbn [rw_call]. unfold ExpectHeaderNotContains.
        by rewrite (bind_Ret _ _ _ _ _ Hnone), (bind_Ret _ _ _ _ _ Hresp), Hh.
  - intros key.
    rewrite (Hrun _ (0 <? length (header_index (RespHeader rp) key))%nat
               (Errorf "expected a header %q not to be present, but it was"
                       [ArgString key])).
    + destruct (header_index (RespHeader rp) key); cbn; naive_solver.
    + cbn [rw_call]. unfold ExpectHeaderNotPresent.
      by rewrite (bind_Ret _ _ _ _ _ Hnone), (bind_Ret _ _ _ _ _ Hresp).
  - intros code.
    rewrite (Hrun _ (negb (StatusCode rp =? code)%Z)
               (Errorf "expected status code %d but got %d"
                       [ArgInt code; ArgInt (StatusCode rp)])).
    + by rewrite negb_involutive, Z.eqb_eq.
    + cbn [rw_call]. unfold ExpectStatus.
      by rewrite (bind_Ret _ _ _ _ _ Hnone), (bind_Ret _ _ _ _ _ Hresp).
Qed.

(** ** Chains *)

Lemma rw_call_pending (env : Env) (s : Store) (r : loc) (E : error)
    (a : Assertion) :
  rw_error r s = Ret (Some E) s →
  rw_call env r a s = Ret (PtrResponseWrapper r) s.
Proof.
  intros H. destruct a; cbn [rw_call].
  all: unfold ExpectBodyContains, ExpectBodyEquals, ExpectBodyNotContains,
         ExpectBodyNotEquals, ExpectBodyPasses, ExpectHeaderContains,
         ExpectHeaderEquals, ExpectHeaderNotContains, ExpectHeaderNotEquals,
         ExpectHeaderNotPresent, ExpectHeaderPresent, ExpectPasses,
         ExpectStatus, ParseBody.
  all: by rewrite (bind_Ret _ _ _ _ _ H).
Qed.

Lemma act_pending (env : Env) (s : Store) (c : loc) (E : error) (a : Action) :
  Error c s = Ret (Some E) s → act env c a s = Ret new_nop s.
Proof.
  unfold Error. intros H. destruct a; cbn [act].
  all: unfold Delete, Get, Patch, Post, Put, PatchNoBody, PostNoBody,
         PutNoBody, PatchString, PostString, PutString, PatchBytes,
         PostBytes, PutBytes, PostForm, doReqNoBody, doReqJSON, doReqString,
         doReqBytes, doReqForm.
  all: by rewrite (bind_Ret _ _ _ _ _ H).
Qed.

Lemma chain_pending (env : Env) (s : Store) (r : loc) (E : error)
    (l : list Assertion) :
  rw_error r s = Ret (Some E) s →
  chain env (PtrResponseWrapper r) l s = Ret (PtrResponseWrapper r) s.
Proof.
  intros H. induction l as [|a l IH]; [done|].
  cbn [chain invoke].
  by rewrite (bind_Ret _ _ _ _ _ (rw_call_pending env s r E a H)).
Qed.

Lemma chain_nop (env : Env) (n : nopResponseWrapper) (l : list Assertion)
    (s : Store) :
  chain env (NopValue n) l s = Ret (NopValue n) s.
Proof.
  induction l as [|a l IH]; [done|]. cbn [chain invoke].
  unfold bind, ret. by destruct a.
Qed.

(** X6. The first failure of a chain wins.  Once an inspector's accessor
    reports an error, a chain of assertions of any length returns the
    inspector in the unchanged store; so a chain whose first assertion
    records an error ends in the store that assertion left, with that
    error. *)
Theorem first_failure_wins (env : Env) (s1 : Store) (r : loc) (E : error) :
  rw_error r s1 = Ret (Some E) s1 →
  (∀ l, chain env (PtrResponseWrapper r) l s1
        = Ret (PtrResponseWrapper r) s1) ∧
  (∀ a l s, rw_call env r a s = Ret (PtrResponseWrapper r) s1 →
            chain env (PtrResponseWrapper r) (a :: l) s
            = Ret (PtrResponseWrapper r) s1).
Proof.
  intros H. split.
  - intros l. by apply chain_pending with (E := E).
  - intros a l s Hrun. cbn [chain invoke].
    rewrite (bind_Ret _ _ _ _ _ Hrun). by apply chain_pending with (E := E).
Qed.

Lemma first_failure_wins_witness :
  chain test_env (PtrResponseWrapper 0)
    [CallExpectStatus 200; CallExpectBodyContains "x"; CallParseBody 3]
    failed_store
  = Ret (PtrResponseWrapper 0) failed_store.
Proof.
  apply (proj1 (first_failure_wins test_env failed_store 0
           (Wrap (External "missing protocol scheme") "creating request")
           eq_refl)).
Defined.

(** X7. On a builder that holds an error, an action followed by a chain of
    assertions of any length does nothing at all: the store is unchanged,
    no transport call is made, and the chain ends on a null inspector. *)
Theorem failed_builder_chain_is_silent (env : Env) (s : Store) (c : loc)
    (E : error) (a : Action) (l : list Assertion) :
  Error c s = Ret (Some E) s →
  (do* w ← act env c a; chain env w l) s
  = Ret (if l is [] then new_nop else NopValue NopResponseWrapper) s.
Proof.
  intros H. rewrite (bind_Ret _ _ _ _ _ (act_pending env s c E a H)).
  destruct l as [|a' l]; [done|].
  cbn [chain new_nop invoke].
  unfold bind at 1, ret at 1.
  replace (nop_call NopResponseWrapper a') with (NopValue NopResponseWrapper)
    by by destruct a'.
  apply chain_nop.
Qed.

Lemma failed_builder_chain_is_silent_witness :
  (do* w ← act test_env 0 (CallGet "/again");
   chain test_env w [CallExpectStatus 200; CallExpectBodyEquals "ok"])
    failed_store
  = Ret (NopValue NopResponseWrapper) failed_store.
Proof.
  apply (failed_builder_chain_is_silent test_env failed_store 0
           (Wrap (External "missing protocol scheme") "creating request")
           (CallGet "/again")
           [CallExpectStatus 200; CallExpectBodyEquals "ok"]).
  reflexivity.
Defined.

(** ** From an action to the one request it sends *)

Lemma with_trace_nil (s : Store) : with_trace (app []) s = s.
Proof. by destruct s. Qed.

(** On a builder with no error, an action whose body marshals and whose
    request can be constructed is [do] on that request. *)
Lemma act_to_do (env : Env) (s : Store) (c : loc) (x : client) (cl : loc)
    (y : client) (a : Action) (body : option string) :
  clients s !! c = Some x → channel_of x = Some cl →
  clients s !! cl = Some y → err y = None →
  action_payload env a = inl body →
  http_NewRequest_err env (action_method a) (target x (action_path a))
  = None →
  act env c a s
  = do env c (Some (request_for env x a body))
       (with_trace (app (marshal_events a)) s).
Proof.
  intros Hc Hch Hy He Hpay Hnew.
  pose proof (healthy_errGetter s c x cl y Hc Hch Hy He) as Hget.
  assert (HdoReq : ∀ (s0 : Store) m p body',
            clients s0 = clients s →
            http_NewRequest_err env m (target x p) = None →
            doReq env c m p body' s0
            = do env c (Some (populated env x m p body')) s0).
  { intros s0 m p body' H1 Hn.
    assert (Hc0 : clients s0 !! c = Some x) by by rewrite H1.
    assert (Hy0 : clients s0 !! cl = Some y) by by rewrite H1.
    unfold doReq.
    rewrite (bind_Ret _ _ _ _ _
               (healthy_errGetter s0 c x cl y Hc0 Hch Hy0 He)).
    unfold bind at 1.
    by rewrite (buildReq_run env s0 c x cl y Hc0 Hch Hy0), Hn. }
  destruct a as [p|p|p v|p v|p v|p|p|p|p v|p v|p v|p v|p v|p v|p v];
    cbn in Hpay, Hnew; cbn [act marshal_events];
    unfold Delete, Get, Patch, Post, Put, PatchNoBody, PostNoBody, PutNoBody,
      PatchString, PostString, PutString, PatchBytes, PostBytes, PutBytes,
      PostForm, doReqNoBody, doReqString, doReqBytes.
  all: try (injection Hpay as <-).
  all: try (rewrite with_trace_nil, (bind_Ret _ _ _ _ _ Hget);
            by apply HdoReq).
  all: try (rewrite (doReqJSON_run env s c x cl y _ _ _ Hc Hch Hy He);
            destruct (json_Marshal env v) as [bs|e'] eqn:Hm; [|done];
            injection Hpay as <-; by apply HdoReq).
  rewrite with_trace_nil. unfold doReqForm.
  rewrite (bind_Ret _ _ _ _ _ Hget). unfold bind at 1.
  by rewrite (buildReq_run env s c x cl y Hc Hch Hy), Hnew.
Qed.

Lemma request_for_target (env : Env) (x : client) (a : Action)
    (body : option string) :
  Method (request_for env x a body) = action_method a ∧
  URL (request_for env x a body) = target x (action_path a).
Proof. unfold request_for. by destruct (is_form a). Qed.

Lemma do_read_fails (env : Env) (s : Store) (c : loc) (x : client) (cl : loc)
    (y : client) (rq : Request) (hc : http_Client) (raw : RawResponse)
    (e : error) :
  clients s !! c = Some x → channel_of x = Some cl →
  clients s !! cl = Some y → err y = None →
  httpClients s !! httpClient x = Some hc →
  httpClient_Do env (trace s) (Jar hc) rq = (Some raw, None) →
  raw_ReadErr raw = Some e →
  let b := fresh (dom (bodies s)) in
  let r := fresh (dom (wrappers s)) in
  do env c (Some rq) s
  = Ret (PtrResponseWrapper r)
        {| clients :=
             <[cl := set_err (Some (recorded env (DoErrSetter c rq)
                                      (Wrap e "reading response body"))) y]>
               (clients s);
           httpClients := httpClients s;
           wrappers := <[r := {| error_ := MethodError c;
                                 setError := DoErrSetter c rq;
                                 resp := Some (response_of raw b);
                                 body := "" |}]> (wrappers s);
           bodies := <[b := {| unread := ""; read_err := Some e;
                               closed := false |}]> (bodies s);
           vars := vars s; jars := jars s;
           trace := EvReadAll b :: EvDo rq :: trace s |}.
Proof.
  intros Hc Hch Hy He Hhc Hdo Hread b r. unfold do.
  rewrite (bind_Ret _ _ _ _ _ (healthy_errGetter s c x cl y Hc Hch Hy He)).
  unfold bind at 1, ret at 1.
  unfold bind at 1, httpClient_Do_call, bind at 1, get_client, deref.
  rewrite Hc. unfold bind at 1, get_httpClient, deref. rewrite Hhc.
  unfold bind at 1, get_store. unfold bind at 1, log, modify_store.
  rewrite Hdo. unfold bind at 1, alloc_body, ret at 1. cbn [snd fst].
  unfold bind at 1, ret at 1.
  set (st := {| unread := raw_Body raw; read_err := raw_ReadErr raw;
                closed := false |}).
  set (s2 := with_bodies (insert (fresh (dom (bodies (with_trace
               (cons (EvDo rq)) s)))) st) (with_trace (cons (EvDo rq)) s)).
  apply channel_of_Some in Hch as [Hget Hset].
  assert (Hnone : call_errChecker (MethodError c) s2 = Ret None s2).
  { rewrite (call_errChecker_cell s2 (MethodError c) cl y), He; [done| |done].
    by apply getter_cell_client with (x := x). }
  rewrite (newResponseWrapper_read_fails env s2 _ _ _ st e cl y Hnone).
  - f_equal. unfold s2, st. cbn. fold b. by rewrite insert_insert_eq.
  - cbn. by rewrite lookup_insert_eq.
  - exact Hread.
  - cbn. rewrite Hc. cbn. by rewrite Hset.
  - done.
Qed.

(** X8. When the transport answers but the response body fails to read,
    the action still returns an inspector around the response, with an
    empty body, and the builder's sticky error is the read error wrapped as
    "reading response body" and annotated with the request's method and
    URL. *)
Theorem action_with_unreadable_body (env : Env) (s : Store) (c : loc)
    (x : client) (cl : loc) (y : client) (a : Action) (body : option string)
    (hc : http_Client) (raw : RawResponse) (e : error) :
  clients s !! c = Some x →
  channel_of x = Some cl →
  clients s !! cl = Some y →
  err y = None →
  action_payload env a = inl body →
  http_NewRequest_err env (action_method a) (target x (action_path a))
  = None →
  httpClients s !! httpClient x = Some hc →
  (∀ tr, httpClient_Do env tr (Jar hc) (request_for env x a body)
         = (Some raw, None)) →
  raw_ReadErr raw = Some e →
  let r := fresh (dom (wrappers s)) in
  ∃ s', act env c a s = Ret (PtrResponseWrapper r) s' ∧
        rw_Body r s' = Ret "" s' ∧
        Error c s'
        = Ret (Some (Wrapf (Wrap e "reading response body")
                       "doing a %v request to URL %q"
                       [ArgString (action_method a);
                        ArgString (URL_String env
                                     (target x (action_path a)))])) s'.
Proof.
  intros Hc Hch Hy He Hpay Hnew Hhc Hdo Hread r.
  rewrite (act_to_do env s c x cl y a body Hc Hch Hy He Hpay Hnew).
  set (s0 := with_trace (app (marshal_events a)) s).
  pose proof (do_read_fails env s0 c x cl y (request_for env x a body)
                hc raw e Hc Hch Hy He Hhc (Hdo _) Hread) as Hd.
  cbn zeta in Hd. eexists. split; [exact Hd|]. split.
  - unfold rw_Body, bind, get_wrapper, deref. cbn.
    by rewrite lookup_insert_eq.
  - destruct (request_for_target env x a body) as [Hm Hu].
    apply channel_of_Some in Hch as [Hget Hset].
    rewrite Error_peek. unfold peek_err. cbn.
    destruct (decide (cl = c)) as [->|Hne].
    + rewrite lookup_insert_eq. cbn. rewrite Hc in Hy. injection Hy as <-.
      rewrite Hget. cbn. rewrite lookup_insert_eq. cbn. by rewrite Hm, Hu.
    + rewrite lookup_insert_ne, Hc by done. cbn. rewrite Hget. cbn.
      rewrite lookup_insert_eq. cbn. by rewrite Hm, Hu.
Qed.

(** X9. An assertion that fails on the inspector of an answered request
    reaches the builder: after an action that delivered a response with
    another status code than the expected one, [ExpectStatus] leaves on the
    builder the sticky error that names both codes, annotated with the
    request's method and URL. *)
Theorem status_mismatch_reaches_builder (env : Env) (s : Store) (c : loc)
    (x : client) (cl : loc) (y : client) (a : Action) (body : option string)
    (hc : http_Client) (raw : RawResponse) (code : Z) :
  clients s !! c = Some x →
  channel_of x = Some cl →
  clients s !! cl = Some y →
  err y = None →
  action_payload env a = inl body →
  http_NewRequest_err env (action_method a) (target x (action_path a))
  = None →
  httpClients s !! httpClient x = Some hc →
  (∀ tr, httpClient_Do env tr (Jar hc) (request_for env x a body)
         = (Some raw, None)) →
  raw_ReadErr raw = None →
  raw_StatusCode raw ≠ code →
  let r := fresh (dom (wrappers s)) in
  ∃ s1 s2, act env c a s = Ret (PtrResponseWrapper r) s1 ∧
           ExpectStatus env r code s1 = Ret (PtrResponseWrapper r) s2 ∧
           Error c s2
           = Ret (Some (Wrapf (Errorf "expected status code %d but got %d"
                                 [ArgInt code; ArgInt (raw_StatusCode raw)])
                          "doing a %v request to URL %q"
                          [ArgString (action_method a);
                           ArgString (URL_String env
                                        (target x (action_path a)))])) s2.
Proof.
  intros Hc Hch Hy He Hpay Hnew Hhc Hdo Hread Hcode r.
  rewrite (act_to_do env s c x cl y a body Hc Hch Hy He Hpay Hnew).
  set (s0 := with_trace (app (marshal_events a)) s).
  pose proof (do_delivers env s0 c x cl y (request_for env x a body)
                hc raw Hc Hch Hy He Hhc (Hdo _) Hread) as Hd.
  cbn zeta in Hd. fold r in Hd.
  eexists. eexists. split; [exact Hd|].
  match type of Hd with _ = Ret _ ?st => set (s1 := st) end.
  set (w := {| error_ := MethodError c;
               setError := DoErrSetter c (request_for env x a body);
               resp := Some (response_of raw (fresh (dom (bodies s0))));
               body := raw_Body raw |}).
  apply channel_of_Some in Hch as Hch'. destruct Hch' as [Hget Hset].
  assert (Hw : wrappers s1 !! r = Some w).
  { cbn. by rewrite lookup_insert_eq. }
  assert (Hg : getter_cell s1 (error_ w) = Some cl).
  { by apply getter_cell_client with (x := x). }
  assert (Hf : setter_cell s1 (setError w) = Some cl).
  { cbn. rewrite Hc. cbn. by rewrite Hset. }
  assert (Hy1 : clients s1 !! cl = Some y) by done.
  unfold ExpectStatus.
  rewrite (bind_Ret _ _ _ _ _ (rw_error_none s1 r w cl y Hw Hg Hy1 He)).
  rewrite (bind_Ret _ _ _ _ _ (rw_resp_some s1 r w Hw _ eq_refl)).
  rewrite (check_when env s1 r w cl y Hw Hf Hy1).
  cbn [StatusCode response_of].
  destruct (Z.eqb_spec (raw_StatusCode raw) code) as [|_]; [done|].
  cbn [negb]. split; [done|].
  destruct (request_for_target env x a body) as [Hm Hu].
  unfold record_failure. cbn [setError w recorded]. rewrite Hm, Hu.
  by apply Error_after_failure with (x := x).
Qed.

(** X10. [ParseBody] on an inspector with no pending error decodes the
    materialized body once: the destination receives what the decoder
    wrote, also when decoding fails, and a decode failure is recorded as
    "unmarshalling body" with the decoder's error as its argument. *)
Theorem ParseBody_decodes (env : Env) (s : Store) (r : loc)
    (w : responseWrapper) (cl : loc) (y : client) (v : loc)
    (v' : option any) (e' : option error) :
  wrappers s !! r = Some w →
  getter_cell s (error_ w) = Some cl →
  setter_cell s (setError w) = Some cl →
  clients s !! cl = Some y →
  err y = None →
  json_Unmarshal env (body w) (vars s !! v) = (v', e') →
  ∃ s', ParseBody env r v s = Ret (PtrResponseWrapper r) s' ∧
        vars s' = (if v' is Some d then <[v := d]> (vars s) else vars s) ∧
        trace s' = EvUnmarshal (body w) v :: trace s ∧
        rw_error r s'
        = Ret ((λ e, recorded env (setError w)
                       (Errorf "unmarshalling body: %v" [ArgError e])) <$> e')
              s'.
Proof.
  intros Hw Hg Hf Hy He Hun. unfold ParseBody.
  rewrite (bind_Ret _ _ _ _ _ (rw_error_none s r w cl y Hw Hg Hy He)).
  rewrite (bind_Ret _ _ _ _ _ (get_wrapper_run s r w Hw)).
  unfold bind at 1, log, modify_store.
  unfold bind at 1, get_store. cbn [trace vars with_trace]. rewrite Hun.
  set (s1 := with_trace (cons (EvUnmarshal (body w) v)) s).
  set (s2 := if v' is Some d then with_vars (insert v d) s1 else s1).
  assert (H2 : (if v' is Some d then modify_store (with_vars (insert v d))
                else ret tt) s1 = Ret tt s2).
  { unfold s2. by destruct v'. }
  rewrite (bind_Ret _ _ _ _ _ H2).
  assert (Hw2 : wrappers s2 !! r = Some w) by (unfold s2; by destruct v').
  assert (Hg2 : getter_cell s2 (error_ w) = Some cl)
    by (unfold s2; by destruct v').
  assert (Hf2 : setter_cell s2 (setError w) = Some cl)
    by (unfold s2; by destruct v').
  assert (Hy2 : clients s2 !! cl = Some y) by (unfold s2; by destruct v').
  assert (Hv2 : vars s2 = (if v' is Some d then <[v := d]> (vars s)
                           else vars s))
    by (unfold s2; by destruct v').
  assert (Ht2 : trace s2 = EvUnmarshal (body w) v :: trace s)
    by (unfold s2; by destruct v').
  destruct e' as [e|].
  - rewrite (check_fails env s2 r w cl y Hw2 Hf2 Hy2).
    eexists. split; [done|]. split_and!; [done|done|].
    apply (rw_error_recorded env s2 r w cl y Hw2 Hg2 Hy2).
  - unfold bind, ret. eexists. split; [done|]. split_and!; [done|done|].
    apply (rw_error_none s2 r w cl y Hw2 Hg2 Hy2 He).
Qed.

(** X11. [PostForm] on a builder with no error panics when its request
    cannot be constructed: the sticky error is recorded first, then the nil
    request is dereferenced. *)
Theorem PostForm_panics_without_request (env : Env) (s : Store) (c : loc)
    (x : client) (cl : loc) (y : client) (path : string)
    (body : list (string * list string)) (e : error) :
  clients s !! c = Some x →
  channel_of x = Some cl →
  clients s !! cl = Some y →
  err y = None →
  http_NewRequest_err env MethodPost (target x path) = Some e →
  PostForm env c path body s
  = Panic (builder_failure s cl y (Wrap e "creating request")).
Proof.
  intros Hc Hch Hy He Hnew.
  by apply (doReqForm_construction_panics env s c x cl y).
Qed.

Lemma PostForm_panics_without_request_witness :
  PostForm test_env 0 "/p" [] (store_of (NewClient ":" empty_store))
  = Panic (builder_failure (store_of (NewClient ":" empty_store)) 0
             bad_url_client
             (Wrap (External "missing protocol scheme") "creating request")).
Proof.
  apply (PostForm_panics_without_request test_env
           (store_of (NewClient ":" empty_store)) 0 bad_url_client 0
           bad_url_client); reflexivity.
Defined.

(** ** Building and configuring a builder *)

(** X12. [NewClient] returns a builder at a fresh address with the given
    base URL, no error, no credentials, no headers and no timeout, whose two
    error closures capture the builder itself, together with an HTTP client
    of its own that has no cookie jar; the builders that exist and the
    errors they report are left as they were. *)
Theorem NewClient_is_clean (url : string) (s : Store) :
  let h := fresh (dom (httpClients s)) in
  let c := fresh (dom (clients s)) in
  let x := {| baseURL := url; httpClient := h; err := None;
              errGetter := ErrGetterOf c; errSetter := ErrSetterOf c;
              useBasicAuth := false; basicAuthUser := ""; basicAuthPass := "";
              useCookies := false; headers := None; timeout := 0 |} in
  ∃ s', NewClient url s = Ret c s' ∧
        (c ∉ dom (clients s)) ∧ (h ∉ dom (httpClients s)) ∧
        clients s' = <[c := x]> (clients s) ∧
        httpClients s' = <[h := {| Jar := None |}]> (httpClients s) ∧
        channel_of x = Some c ∧
        Error c s' = Ret None s' ∧
        (∀ q, is_Some (peek_err s q) → peek_err s' q = peek_err s q).
Proof.
  intros h c x. eexists. split; [reflexivity|].
  split_and!; try done.
  - apply is_fresh.
  - apply is_fresh.
  - unfold channel_of. cbn. by rewrite decide_True.
  - rewrite Error_peek. unfold peek_err. cbn.
    rewrite lookup_insert_eq. cbn. by rewrite lookup_insert_eq.
  - intros q Hq.
    apply (peek_err_alloc (with_httpClients (insert h {| Jar := None |}) s)
             q x Hq).
Qed.

(** [Add] appends under the canonical form of the key and nowhere else. *)
Lemma Header_Add_lookup (env : Env) (h : Header) (key value k : string) :
  default [] (Header_Add env h key value !! k)
  = if decide (k = CanonicalMIMEHeaderKey env key)
    then (default [] (h !! CanonicalMIMEHeaderKey env key) ++ [value])%list
    else default [] (h !! k).
Proof.
  unfold Header_Add. cbn zeta.
  destruct (decide (k = CanonicalMIMEHeaderKey env key)) as [->|Hne].
  - by rewrite lookup_insert_eq.
  - by rewrite lookup_insert_ne.
Qed.

Lemma healthy_after_update (s : Store) (c : loc) (x : client) (cl : loc)
    (y : client) (f : client → client) :
  clients s !! c = Some x → channel_of x = Some cl →
  clients s !! cl = Some y → err y = None →
  (∀ z, err (f z) = err z ∧ errGetter (f z) = errGetter z ∧
        errSetter (f z) = errSetter z) →
  let s1 := with_clients (insert c (f x)) s in
  update_client c f s = Ret tt s1 ∧
  clients s1 !! c = Some (f x) ∧ channel_of (f x) = Some cl ∧
  ∃ y1, clients s1 !! cl = Some y1 ∧ err y1 = None.
Proof.
  intros Hc Hch Hy He Hf s1. split_and!.
  - unfold update_client, bind, get_client, deref. by rewrite Hc.
  - cbn. by rewrite lookup_insert_eq.
  - unfold channel_of in *. destruct (Hf x) as (_ & -> & ->). done.
  - destruct (decide (c = cl)) as [->|Hne].
    + exists (f x). cbn. rewrite lookup_insert_eq. split; [done|].
      rewrite Hc in Hy. injection Hy as ->. by rewrite (proj1 (Hf y)).
    + exists y. cbn. by rewrite lookup_insert_ne.
Qed.

(** Copying a map with canonical keys into any map puts its values behind
    the ones already there. *)
Lemma add_each_into (env : Env) (m dst : Header) (k : string) :
  map_Forall (λ k _, CanonicalMIMEHeaderKey env k = k) m →
  default [] (add_each env (Some m) dst !! k)
  = (default [] (dst !! k) ++ default [] (m !! k))%list.
Proof.
  cbn [add_each]. revert k.
  apply (map_fold_weak_ind
           (λ (r : Header) (m' : Header),
              ∀ k, map_Forall (λ k _, CanonicalMIMEHeaderKey env k = k) m' →
                   default [] (r !! k)
                   = (default [] (dst !! k) ++ default [] (m' !! k))%list)).
  - intros k _. by rewrite lookup_empty, app_nil_r.
  - intros i x m' r Hi IH k Hall.
    apply map_Forall_insert in Hall as [Hcanon Hall]; [|done].
    rewrite (add_values_index _ _ _ _ _ Hcanon).
    destruct (decide (k = i)) as [->|Hne].
    + rewrite lookup_insert_eq, (IH i Hall), Hi. cbn.
      by rewrite app_nil_r.
    + rewrite lookup_insert_ne by done. by apply IH.
Qed.

(** The headers of the request built for builder [x]: what [SetBasicAuth]
    wrote, then the builder's own values. *)
Lemma populated_headers (env : Env) (x : client) (method path : string)
    (body : option string) (k : string) :
  headers_canonical env x →
  header_index (Some (ReqHeader (populated env x method path body))) k
  = ((if useBasicAuth x
      then if decide (k = CanonicalMIMEHeaderKey env "Authorization")
           then ["Basic " +:+ basicAuth env (basicAuthUser x)
                                (basicAuthPass x)]
           else []
      else []) ++ header_index (headers x) k)%list.
Proof.
  intros Hcanon. cbn [populated ReqHeader header_index].
  assert (Hdst : default []
            ((if useBasicAuth x
              then SetBasicAuth env ∅ (basicAuthUser x) (basicAuthPass x)
              else ∅) !! k)
          = (if useBasicAuth x
             then if decide (k = CanonicalMIMEHeaderKey env "Authorization")
                  then ["Basic " +:+ basicAuth env (basicAuthUser x)
                                       (basicAuthPass x)]
                  else []
             else [])).
  { destruct (useBasicAuth x); [|by rewrite lookup_empty].
    unfold SetBasicAuth, Header_Set. case_decide as Hk.
    - subst k. by rewrite lookup_insert_eq.
    - rewrite lookup_insert_ne by done. by rewrite lookup_empty. }
  unfold headers_canonical in Hcanon.
  destruct (headers x) as [m|]; cbn [from_option] in Hcanon.
  - by rewrite (add_each_into env m _ k Hcanon), Hdst.
  - cbn [add_each]. by rewrite Hdst, app_nil_r.
Qed.

(** X13. The configuration of a builder with no error reaches the requests
    it builds.  The request's headers are the builder's, behind the
    [Authorization] value that [SetBasicAuth] writes when basic auth is on:
    after [UseBasicAuth] the [Authorization] header starts with the encoded
    credentials, after [NoBasicAuth] the headers are just the builder's;
    after [WithTimeout] the request has the timeout as its deadline exactly
    when the timeout is positive; after [WithHeader] it has the new value
    last under the canonical key.  Each call returns the builder itself. *)
Theorem configuration_reaches_request (env : Env) (s : Store) (c : loc)
    (x : client) (cl : loc) (y : client) (method path : string)
    (body : option string) :
  clients s !! c = Some x →
  channel_of x = Some cl →
  clients s !! cl = Some y →
  err y = None →
  headers_canonical env x →
  http_NewRequest_err env method (target x path) = None →
  let A := CanonicalMIMEHeaderKey env "Authorization" in
  (∀ user pass, ∃ s1 req,
     UseBasicAuth c user pass s = Ret c s1 ∧
     buildReq env c method path body s1 = Ret (Some req) s1 ∧
     ∀ k, header_index (Some (ReqHeader req)) k
          = ((if decide (k = A)
              then ["Basic " +:+ basicAuth env user pass] else [])
             ++ header_index (headers x) k)%list) ∧
  (∃ s1 req,
     NoBasicAuth c s = Ret c s1 ∧
     buildReq env c method path body s1 = Ret (Some req) s1 ∧
     ∀ k, header_index (Some (ReqHeader req)) k
          = header_index (headers x) k) ∧
  (∀ t, ∃ s1 req,
     WithTimeout c t s = Ret c s1 ∧
     buildReq env c method path body s1 = Ret (Some req) s1 ∧
     ReqTimeout req = (if (0 <? t)%Z then Some t else None)) ∧
  (∀ key value,
     CanonicalMIMEHeaderKey env (CanonicalMIMEHeaderKey env key)
     = CanonicalMIMEHeaderKey env key →
     ∃ s1 req,
       WithHeader env c key value s = Ret c s1 ∧
       buildReq env c method path body s1 = Ret (Some req) s1 ∧
       header_index (Some (ReqHeader req)) (CanonicalMIMEHeaderKey env key)
       = ((if useBasicAuth x
           then if decide (CanonicalMIMEHeaderKey env key = A)
                then ["Basic " +:+ basicAuth env (basicAuthUser x)
                                     (basicAuthPass x)]
                else []
           else [])
          ++ header_index (headers x) (CanonicalMIMEHeaderKey env key)
          ++ [value])%list).
Proof.
  intros Hc Hch Hy He Hcanon Hnew A.
  pose proof (healthy_errGetter s c x cl y Hc Hch Hy He) as Hget.
  assert (Hbuild : ∀ f : client → client,
            (∀ z, err (f z) = err z ∧ errGetter (f z) = errGetter z ∧
                  errSetter (f z) = errSetter z) →
            baseURL (f x) = baseURL x →
            let s1 := with_clients (insert c (f x)) s in
            update_client c f s = Ret tt s1 ∧
            buildReq env c method path body s1
            = Ret (Some (populated env (f x) method path body)) s1).
  { intros f Hf Hbase s1.
    destruct (healthy_after_update s c x cl y f Hc Hch Hy He Hf)
      as (Hupd & Hc1 & Hch1 & y1 & Hy1 & He1).
    split; [done|].
    rewrite (buildReq_run env _ c (f x) cl y1 Hc1 Hch1 Hy1).
    unfold target in Hnew |- *. by rewrite Hbase, Hnew. }
  split_and!.
  - intros user pass.
    destruct (Hbuild (set_basicAuth true user pass)) as [Hupd Hreq];
      [done|done|].
    eexists _, _. split_and!; [|exact Hreq|].
    + unfold UseBasicAuth.
      by rewrite (bind_Ret _ _ _ _ _ Hget), (bind_Ret _ _ _ _ _ Hupd).
    + intros k. by rewrite populated_headers.
  - destruct (Hbuild (set_basicAuth false "" "")) as [Hupd Hreq];
      [done|done|].
    eexists _, _. split_and!; [|exact Hreq|].
    + unfold NoBasicAuth.
      by rewrite (bind_Ret _ _ _ _ _ Hget), (bind_Ret _ _ _ _ _ Hupd).
    + intros k. by rewrite populated_headers.
  - intros t.
    destruct (Hbuild (set_timeout t)) as [Hupd Hreq]; [done|done|].
    eexists _, _. split_and!; [|exact Hreq|done].
    unfold WithTimeout.
    by rewrite (bind_Ret _ _ _ _ _ Hget), (bind_Ret _ _ _ _ _ Hupd).
  - intros key value Hidem.
    set (h := if headers x is Some h then h else ∅).
    destruct (Hbuild (set_headers (Some (Header_Add env h key value))))
      as [Hupd Hreq]; [done|done|].
    eexists _, _. split_and!; [|exact Hreq|].
    + unfold WithHeader.
      rewrite (bind_Ret _ _ _ _ _ Hget).
      unfold bind at 1, get_client, deref. rewrite Hc.
      fold h. by rewrite (bind_Ret _ _ _ _ _ Hupd).
    + assert (Hall : map_Forall
                (λ k _, CanonicalMIMEHeaderKey env k = k) h).
      { unfold headers_canonical in Hcanon. unfold h.
        destruct (headers x); [done | apply map_Forall_empty]. }
      rewrite populated_headers.
      * cbn [useBasicAuth basicAuthUser basicAuthPass headers set_headers
             header_index].
        rewrite Header_Add_lookup.
        destruct (decide (CanonicalMIMEHeaderKey env key
                          = CanonicalMIMEHeaderKey env key)) as [_|Hne];
          [|done].
        f_equal. unfold h. destruct (headers x); cbn; [done|].
        by rewrite lookup_empty.
      * cbn. unfold Header_Add. cbn zeta.
        by apply map_Forall_insert_2.
Qed.

(** X14. [WithHeader] on a builder with no error returns the builder with
    the value appended, after those already there, under the canonical form
    of the key; the values under every other key and all other fields stay
    as they were, and the keys stay canonical. *)
Theorem WithHeader_appends (env : Env) (s : Store) (c : loc) (x : client)
    (cl : loc) (y : client) (key value : string) :
  clients s !! c = Some x →
  channel_of x = Some cl →
  clients s !! cl = Some y →
  err y = None →
  ∃ h', WithHeader env c key value s
        = Ret c (with_clients (insert c (set_headers (Some h') x)) s) ∧
        (∀ k, header_index (Some h') k
              = if decide (k = CanonicalMIMEHeaderKey env key)
                then (header_index (headers x) (CanonicalMIMEHeaderKey env key)
                        ++ [value])%list
                else header_index (headers x) k) ∧
        (CanonicalMIMEHeaderKey env (CanonicalMIMEHeaderKey env key)
         = CanonicalMIMEHeaderKey env key →
         headers_canonical env x →
         headers_canonical env (set_headers (Some h') x)).
Proof.
  intros Hc Hch Hy He.
  pose proof (healthy_errGetter s c x cl y Hc Hch Hy He) as Hget.
  set (h := if headers x is Some h then h else ∅).
  exists (Header_Add env h key value). split_and!.
  - unfold WithHeader. rewrite (bind_Ret _ _ _ _ _ Hget).
    unfold bind at 1, get_client, deref. rewrite Hc. fold h.
    unfold update_client, bind, get_client, deref. by rewrite Hc.
  - intros k. cbn [header_index]. rewrite Header_Add_lookup.
    unfold h. destruct (headers x); cbn; [done|].
    by rewrite !lookup_empty.
  - intros Hidem Hcanon. cbn. unfold Header_Add. cbn zeta.
    apply map_Forall_insert_2; [done|].
    unfold headers_canonical in Hcanon. unfold h.
    destruct (headers x); [done | apply map_Forall_empty].
Qed.

Lemma WithHeader_appends_witness :
  ∃ h', WithHeader test_env 0 "x-api-key" "67890" api_store
        = Ret 0 (with_clients (insert 0 (set_headers (Some h') api_client))
                   api_store) ∧
        header_index (Some h') "X-Api-Key" = ["12345"; "67890"].
Proof.
  destruct (WithHeader_appends test_env api_store 0 api_client 0 api_client
              "x-api-key" "67890") as (h' & H1 & H2 & _);
    [vm_compute; reflexivity | reflexivity | vm_compute; reflexivity
    | reflexivity |].
  exists h'. split; [exact H1|]. exact (H2 "X-Api-Key").
Defined.

(** X15. [UseCookies] on a builder with no error acts on the builder's
    HTTP client: with [false] it removes the cookie jar, with [true] it
    installs a new jar, and when no jar can be created it records the
    failure as "creating cookie jar" and leaves the HTTP client alone.  It
    returns the builder in each case. *)
Theorem UseCookies_sets_the_jar (env : Env) (s : Store) (c : loc)
    (x : client) (cl : loc) (y : client) (hc : http_Client) :
  clients s !! c = Some x →
  channel_of x = Some cl →
  clients s !! cl = Some y →
  err y = None →
  httpClients s !! httpClient x = Some hc →
  UseCookies env c false s
  = Ret c (with_httpClients (insert (httpClient x) {| Jar := None |}) s) ∧
  (cookiejar_New_err env = None →
   UseCookies env c true s
   = Ret c (with_httpClients
              (insert (httpClient x) {| Jar := Some (jars s) |})
              (with_jars S s))) ∧
  (∀ e, cookiejar_New_err env = Some e →
        UseCookies env c true s
        = Ret c (builder_failure s cl y (Wrap e "creating cookie jar"))).
Proof.
  intros Hc Hch Hy He Hhc.
  pose proof (healthy_errGetter s c x cl y Hc Hch Hy He) as Hget.
  split_and!.
  - unfold UseCookies. rewrite (bind_Ret _ _ _ _ _ Hget).
    unfold bind at 1, get_client, deref. rewrite Hc. cbn [negb].
    unfold update_httpClient, bind, get_httpClient, deref. by rewrite Hhc.
  - intros Hjar. unfold UseCookies. rewrite (bind_Ret _ _ _ _ _ Hget).
    unfold bind at 1, get_client, deref. rewrite Hc. cbn [negb].
    rewrite Hjar.
    unfold update_httpClient, bind, get_httpClient, deref, get_store,
      modify_store. cbn. by rewrite Hhc.
  - intros e Hjar. unfold UseCookies. rewrite (bind_Ret _ _ _ _ _ Hget).
    unfold bind at 1, get_client, deref. rewrite Hc. cbn [negb].
    rewrite Hjar.
    by rewrite (bind_Ret _ _ _ _ _
                  (proj1 (healthy_fails s c x cl y Hc Hch Hy _))).
Qed.

Lemma UseCookies_sets_the_jar_witness :
  UseCookies test_env 0 true fresh_store
  = Ret 0 (with_httpClients (insert 0 {| Jar := Some 0 |})
             (with_jars S fresh_store)) ∧
  UseCookies unreadable_env 0 true fresh_store
  = Ret 0 (builder_failure fresh_store 0 healthy_client
             (Wrap (External "no jar") "creating cookie jar")).
Proof.
  split.
  - apply (proj1 (proj2 (UseCookies_sets_the_jar test_env fresh_store 0
             healthy_client 0 healthy_client {| Jar := None |}
             eq_refl eq_refl eq_refl eq_refl eq_refl))).
    reflexivity.
  - apply (proj2 (proj2 (UseCookies_sets_the_jar unreadable_env fresh_store 0
             healthy_client 0 healthy_client {| Jar := None |}
             eq_refl eq_refl eq_refl eq_refl eq_refl))).
    reflexivity.
Defined.

Lemma configuration_reaches_request_witness :
  ∃ s1 req,
    UseBasicAuth 0 "user" "secret" api_store = Ret 0 s1 ∧
    buildReq test_env 0 MethodGet "/p" None s1 = Ret (Some req) s1 ∧
    header_index (Some (ReqHeader req)) "Authorization"
    = ["Basic user:secret"] ∧
    header_index (Some (ReqHeader req)) "X-Api-Key" = ["12345"].
Proof.
  assert (Hcanon : headers_canonical test_env api_client).
  { apply map_Forall_singleton. reflexivity. }
  destruct (proj1 (configuration_reaches_request test_env api_store 0
              api_client 0 api_client MethodGet "/p" None
              ltac:(vm_compute; reflexivity) eq_refl
              ltac:(vm_compute; reflexivity) eq_refl Hcanon eq_refl)
              "user" "secret") as (s1 & req & H1 & H2 & H3).
  exists s1, req. split_and!; [exact H1 | exact H2 | |].
  - exact (H3 "Authorization").
  - exact (H3 "X-Api-Key").
Defined.

Lemma action_delivers_response_witness :
  ∃ s', act test_env 0 (CallGet "/p") fresh_store
        = Ret (PtrResponseWrapper (fresh (dom (wrappers fresh_store)))) s' ∧
        rw_Body (fresh (dom (wrappers fresh_store))) s'
        = Ret "some body" s'.
Proof.
  destruct (action_delivers_response test_env fresh_store 0 healthy_client 0
              healthy_client (CallGet "/p") None {| Jar := None |}
              test_answer) as (s' & H1 & _ & H2 & _);
    [reflexivity | reflexivity | reflexivity | reflexivity | reflexivity
    | reflexivity | reflexivity | intros tr; reflexivity | reflexivity |].
  exists s'. exact (conj H1 H2).
Defined.

Lemma action_with_unreadable_body_witness :
  ∃ s', act unreadable_env 0 (CallGet "/p") fresh_store
        = Ret (PtrResponseWrapper (fresh (dom (wrappers fresh_store)))) s' ∧
        rw_Body (fresh (dom (wrappers fresh_store))) s' = Ret "" s' ∧
        Error 0 s'
        = Ret (Some (Wrapf (Wrap (External "read error")
                              "reading response body")
                       "doing a %v request to URL %q"
                       [ArgString "GET"; ArgString "http://x/p"])) s'.
Proof.
  apply (action_with_unreadable_body unreadable_env fresh_store 0
           healthy_client 0 healthy_client (CallGet "/p") None
           {| Jar := None |}
           {| raw_StatusCode := 200; raw_Header := None; raw_Body := "";
              raw_ReadErr := Some (External "read error") |}
           (External "read error"));
    reflexivity.
Defined.

Lemma status_mismatch_reaches_builder_witness :
  ∃ s1 s2,
    act test_env 0 (CallGet "/p") fresh_store
    = Ret (PtrResponseWrapper (fresh (dom (wrappers fresh_store)))) s1 ∧
    ExpectStatus test_env (fresh (dom (wrappers fresh_store))) 201 s1
    = Ret (PtrResponseWrapper (fresh (dom (wrappers fresh_store)))) s2 ∧
    Error 0 s2
    = Ret (Some (Wrapf (Errorf "expected status code %d but got %d"
                          [ArgInt 201; ArgInt 200])
                   "doing a %v request to URL %q"
                   [ArgString "GET"; ArgString "http://x/p"])) s2.
Proof.
  apply (status_mismatch_reaches_builder test_env fresh_store 0
           healthy_client 0 healthy_client (CallGet "/p") None
           {| Jar := None |} test_answer 201);
    try reflexivity.
  done.
Defined.

Lemma body_checks_decide_witness :
  passes test_env 0 (CallExpectBodyContains "body") (inspected_store None)
  = true ↔
  ∃ pre post, body (inspector_on None) = pre +:+ "body" +:+ post.
Proof.
  apply (proj1 (body_checks_decide test_env (inspected_store None) 0
           (inspector_on None) 0 healthy_client
           eq_refl eq_refl eq_refl eq_refl eq_refl)).
Defined.

Lemma header_and_status_checks_decide_witness :
  passes test_env 0 (CallExpectHeaderEquals "Auth" "password")
    (inspected_store (Some auth_header)) = true ↔
  RespHeader (sample_response (Some auth_header)) ≠ None ∧
  "password" ∈ header_index (RespHeader (sample_response (Some auth_header)))
                 "Auth".
Proof.
  apply (proj1 (header_and_status_checks_decide test_env
           (inspected_store (Some auth_header)) 0
           (inspector_on (Some auth_header)) 0 healthy_client
           (sample_response (Some auth_header))
           eq_refl eq_refl eq_refl eq_refl eq_refl eq_refl)).
Defined.

Lemma ParseBody_decodes_witness :
  ∃ s', ParseBody test_env 0 5 (inspected_store None)
        = Ret (PtrResponseWrapper 0) s' ∧
        vars s' = vars (inspected_store None) ∧
        trace s' = EvUnmarshal "some body" 5 :: trace (inspected_store None) ∧
        rw_error 0 s'
        = Ret (Some (Errorf "unmarshalling body: %v"
                       [ArgError (External "invalid character")])) s'.
Proof.
  apply (ParseBody_decodes test_env (inspected_store None) 0
           (inspector_on None) 0 healthy_client 5 None
           (Some (External "invalid character"))
           eq_refl eq_refl eq_refl eq_refl eq_refl eq_refl).
Defined.

(** ** Reading the body back *)

(** X16. [Body] is a read of the inspector's materialized body: it leaves
    the store as it is, and it returns the same string before and after any
    assertion, so results stay consistent along a chain. *)
Theorem Body_is_stable (env : Env) (r : loc) (a : Assertion) (s : Store) :
  store_of (rw_Body r s) = s ∧
  value_of (rw_Body r (store_of (rw_call env r a s))) = value_of (rw_Body r s).
Proof.
  split.
  - unfold rw_Body, bind, get_wrapper, deref, ret.
    by destruct (wrappers s !! r).
  - destruct (rw_call_frame env r a s) as (_ & Hw & _).
    unfold rw_Body, bind, get_wrapper, deref, ret. rewrite Hw.
    by destruct (wrappers s !! r).
Qed.

(** ** A response that comes with an error *)

(** X17. When the transport returns a response together with an error, the
    action records the error as "doing request" and returns an inspector
    around that response without reading it: the inspector's body is empty,
    no read enters the trace, and the response's stream stays as the
    transport delivered it, closed. *)
Theorem action_with_response_and_error (env : Env) (s : Store) (c : loc)
    (x : client) (cl : loc) (y : client) (a : Action) (body : option string)
    (hc : http_Client) (raw : RawResponse) (e : error) :
  clients s !! c = Some x →
  channel_of x = Some cl →
  clients s !! cl = Some y →
  err y = None →
  action_payload env a = inl body →
  http_NewRequest_err env (action_method a) (target x (action_path a))
  = None →
  httpClients s !! httpClient x = Some hc →
  (∀ tr, httpClient_Do env tr (Jar hc) (request_for env x a body)
         = (Some raw, Some e)) →
  let b := fresh (dom (bodies s)) in
  let r := fresh (dom (wrappers s)) in
  ∃ s', act env c a s = Ret (PtrResponseWrapper r) s' ∧
        wrappers s' !! r
        = Some {| error_ := MethodError c;
                  setError := DoErrSetter c (request_for env x a body);
                  resp := Some (response_of raw b); body := "" |} ∧
        bodies s' !! b
        = Some {| unread := raw_Body raw; read_err := raw_ReadErr raw;
                  closed := true |} ∧
        trace s'
        = EvDo (request_for env x a body)
            :: (marshal_events a ++ trace s)%list ∧
        Error c s' = Ret (Some (Wrap e "doing request")) s'.
Proof.
  intros Hc Hch Hy He Hpay Hnew Hhc Hdo b r.
  rewrite (act_to_do env s c x cl y a body Hc Hch Hy He Hpay Hnew).
  set (s0 := with_trace (app (marshal_events a)) s).
  set (rq := request_for env x a body).
  unfold do.
  rewrite (bind_Ret _ _ _ _ _ (healthy_errGetter s0 c x cl y Hc Hch Hy He)).
  unfold bind at 1, ret at 1.
  unfold bind at 1, httpClient_Do_call, bind at 1, get_client, deref.
  cbn [clients s0 with_trace]. rewrite Hc.
  unfold bind at 1, get_httpClient, deref.
  cbn [httpClients s0 with_trace]. rewrite Hhc.
  unfold bind at 1, get_store. unfold bind at 1, log, modify_store.
  fold rq. rewrite (Hdo _).
  unfold bind at 1, alloc_body, ret at 1. cbn [snd fst].
  match goal with
  | |- context [bind (errSetter_of c _) _ ?st] => set (s2 := st)
  end.
  apply channel_of_Some in Hch as [Hget Hset].
  assert (Hc2 : clients s2 !! c = Some x) by done.
  assert (Hy2 : clients s2 !! cl = Some y) by done.
  rewrite (bind_Ret _ _ _ _ _
             (errSetter_of_run s2 c x cl y _ Hc2 Hset Hy2)).
  pose proof (Error_after_failure s2 c x cl y (Wrap e "doing request")
                Hc2 Hget Hy2) as Herr.
  rewrite (newResponseWrapper_existing_error env
             (builder_failure s2 cl y (Wrap e "doing request"))
             (MethodError c) _ _ _ Herr).
  eexists. split; [done|]. split_and!.
  - cbn. by rewrite lookup_insert_eq.
  - cbn. by rewrite lookup_insert_eq.
  - done.
  - apply Error_inv in Herr as [_ Hpeek].
    rewrite Error_peek. unfold peek_err in *. cbn in *. by rewrite Hpeek.
Qed.

Lemma action_with_response_and_error_witness :
  ∃ s', act redirect_env 0 (CallGet "/p") fresh_store
        = Ret (PtrResponseWrapper (fresh (dom (wrappers fresh_store)))) s' ∧
        bodies s' !! fresh (dom (bodies fresh_store))
        = Some {| unread := ""; read_err := None; closed := true |} ∧
        Error 0 s'
        = Ret (Some (Wrap (External "redirect refused") "doing request")) s'.
Proof.
  destruct (action_with_response_and_error redirect_env fresh_store 0
              healthy_client 0 healthy_client (CallGet "/p") None
              {| Jar := None |}
              {| raw_StatusCode := 302; raw_Header := None; raw_Body := "";
                 raw_ReadErr := None |} (External "redirect refused"))
    as (s' & H1 & _ & H2 & _ & H3); try reflexivity.
  exists s'. exact (conj H1 (conj H2 H3)).
Defined.
